(** * Live audio session of AI-Mega-App: a shallow embedding

    The development follows [src/components/LiveChat.tsx]:
    - [Js]: the few pieces of JavaScript semantics the component relies
      on (UTF-16 strings, [trim], truthiness, the [Int16Array] store);
    - [Codec]: [createBlob] and the PCM frame codec;
    - [Live]: the React refs and state of the component, [stopSession],
      [startSession] and the [onmessage] callback split at its [await].

    Numbers.  JavaScript numbers are binary64 floats.  Every sample of a
    [Float32Array] is a dyadic rational and its product with 32768 (a
    power of two) is exact in binary64, so samples are modelled as
    rationals [Q] and the scaling as the exact product.  Times on the
    audio clock are modelled as rationals as well. *)

From Stdlib Require Import ZArith QArith Qminmax Qround Qabs List Bool Lia Lqa.
From Stdlib Require Import Strings.String Strings.Ascii.
Import ListNotations.


(* ================================================================= *)
(** ** JavaScript values used by the component *)

Module Js.

(** A JavaScript string is a sequence of UTF-16 code units. *)
Definition jsstring := list N.

Definition js (s : string) : jsstring :=
  map N_of_ascii (list_ascii_of_string s).

(** A string is truthy exactly when it is not empty. *)
Definition truthy (s : jsstring) : bool :=
  match s with [] => false | _ :: _ => true end.

(** The [WhiteSpace] and [LineTerminator] code points of ECMA-262, the
    characters [String.prototype.trim] strips. *)
Definition whitespace_units : list N :=
  [ 9; 10; 11; 12; 13; 32; 160; 5760;
    8192; 8193; 8194; 8195; 8196; 8197; 8198; 8199; 8200; 8201; 8202;
    8232; 8233; 8239; 8287; 12288; 65279 ]%N.

Definition is_whitespace (c : N) : bool :=
  existsb (N.eqb c) whitespace_units.

Fixpoint trimStart (s : jsstring) : jsstring :=
  match s with
  | [] => []
  | c :: r => if is_whitespace c then trimStart r else s
  end.

Definition trimEnd (s : jsstring) : jsstring :=
  rev (trimStart (rev s)).

(** [String.prototype.trim] *)
Definition trim (s : jsstring) : jsstring := trimEnd (trimStart s).

(** Truncation of a real toward zero, the first step of [ToInt16]. *)
Definition truncate (q : Q) : Z := Z.quot (Qnum q) (Zpos (Qden q)).

(** [ToInt16] of ECMA-262 on a finite number: truncate, reduce
    modulo 2^16, and read the result as a signed 16-bit integer.  This
    is the conversion an [Int16Array] element store performs. *)
Definition ToInt16 (q : Q) : Z :=
  let int16bit := (truncate q mod 65536)%Z in
  if (int16bit >=? 32768)%Z then (int16bit - 65536)%Z else int16bit.

(** The two bytes a little-endian platform stores for an [Int16Array]
    element, as seen through a [Uint8Array] over the same buffer. *)
Definition int16_bytes (v : Z) : list Z :=
  let u := (v mod 65536)%Z in
  [ Z.land u 255; Z.shiftr u 8 ].

(** The signed 16-bit value an [Int16Array] view reads back from two
    bytes, low byte first. *)
Definition int16_of_bytes (lo hi : Z) : Z :=
  let u := Z.lor lo (Z.shiftl hi 8) in
  if (u >=? 32768)%Z then (u - 65536)%Z else u.

End Js.

(* ================================================================= *)
(** ** The PCM frame codec *)

Module Codec.
Import Js.

(** [Blob] of [@google/genai]: a payload and its MIME tag. *)
Record Blob : Type := mkBlob {
  data : jsstring;
  mimeType : jsstring
}.

(** An [AudioBuffer] with one channel. *)
Record AudioBuffer : Type := mkAudioBuffer {
  channelData : list Q;
  sampleRate : positive
}.

(** [AudioBuffer.duration]: the number of sample frames over the
    sample rate, in seconds. *)
Definition duration (b : AudioBuffer) : Q :=
  Z.of_nat (List.length (channelData b)) # sampleRate b.

(** The value stored by [int16[i] = data[i] * 32768]. *)
Definition sample_to_int16 (x : Q) : Z := ToInt16 (x * 32768).

(** The [Uint8Array] over [int16.buffer] that [createBlob] hands to
    [encode]. *)
Definition pcm_bytes (samples : list Q) : list Z :=
  flat_map (fun x => int16_bytes (sample_to_int16 x)) samples.

(** The clamp and scale step of [bufferToWave] in the text-to-speech
    component, the sibling encoder of this repository:
    [Math.max(-1, Math.min(1, s))], then
    [(0.5 + s < 0 ? s * 32768 : s * 32767) | 0]. *)
Definition wave_sample (x : Q) : Z :=
  let s := Qmax (-1) (Qmin 1 x) in
  if Qlt_le_dec ((1 # 2) + s) 0
  then truncate (s * 32768)
  else truncate (s * 32767).

Fixpoint int16_view (bytes : list Z) : list Z :=
  match bytes with
  | lo :: hi :: rest => int16_of_bytes lo hi :: int16_view rest
  | _ => []
  end.

(** Modelled from the spec: [decodeAudioData] of [utils/audioUtils] is
    absent from the sources.  The spec's [decodeInbound] reverses the
    encoder's transform: the payload is read as 16-bit signed
    little-endian integers and each is normalised to [-1,1] by the
    scale 32768; an empty or malformed (odd-length) payload fails
    with a DecodeError, here [None]. *)
Definition decodeAudioData (bytes : list Z) (rate : positive)
  : option AudioBuffer :=
  match bytes with
  | [] => None
  | _ =>
    if Nat.even (List.length bytes)
    then Some {| channelData :=
                   map (fun v => inject_Z v / 32768) (int16_view bytes);
                 sampleRate := rate |}
    else None
  end.

Section Packing.
(** [encode] and [decode] of [utils/audioUtils], which turn a byte
    array into a string and back, are not among the sources; the codec
    takes them as parameters. *)
Variable encode : list Z -> jsstring.
Variable decode : jsstring -> list Z.

(** [createBlob] of LiveChat.tsx. *)
Definition createBlob (samples : list Q) : Blob :=
  {| data := encode (pcm_bytes samples);
     mimeType := js "audio/pcm;rate=16000" |}.

(** Modelled from the spec: [decodeInbound] on a frame, that is
    [decodeAudioData (decode frame.data)]. *)
Definition decodeInbound (frame : Blob) (rate : positive)
  : option AudioBuffer :=
  decodeAudioData (decode (data frame)) rate.
End Packing.

(** The encoder in the spec's words: scale by 32768, round to the
    nearest integer, saturate at 32767 and -32768. *)
Definition spec_round_nearest (q : Q) : Z := Qfloor (q + (1 # 2)).

Definition spec_saturate (z : Z) : Z := Z.max (-32768) (Z.min 32767 z).

Definition spec_sample_to_int16 (x : Q) : Z :=
  spec_saturate (spec_round_nearest (x * 32768)).

(** Modelled from the spec: [encode] and [decode] of [utils/audioUtils]
    are absent from the sources; the spec describes the wire payload as
    a base64-style packing of the bytes.  This is base64 with the
    standard alphabet and [=] padding: three bytes become four
    characters of six bits each. *)
Definition base64_alphabet : jsstring :=
  js "ABCDEFGHIJKLMNOPQRSTUVWXYZabcdefghijklmnopqrstuvwxyz0123456789+/".

Definition base64_pad : N := 61%N.

(** Modelled from the spec: the character of a six-bit value. *)
Definition base64_char (v : Z) : N :=
  nth (Z.to_nat v) base64_alphabet base64_pad.

Fixpoint index_of (c : N) (l : list N) : Z :=
  match l with
  | [] => 0
  | x :: r => if N.eqb c x then 0 else 1 + index_of c r
  end%Z.

(** Modelled from the spec: the six-bit value of a character. *)
Definition base64_value (c : N) : Z := index_of c base64_alphabet.

(** Modelled from the spec: [encode], bytes to base64 text. *)
Fixpoint base64_encode (bytes : list Z) : jsstring :=
  match bytes with
  | [] => []
  | [a] =>
      [ base64_char (a / 4); base64_char (a mod 4 * 16);
        base64_pad; base64_pad ]
  | [a; b] =>
      [ base64_char (a / 4); base64_char (a mod 4 * 16 + b / 16);
        base64_char (b mod 16 * 4); base64_pad ]
  | a :: b :: c :: rest =>
      [ base64_char (a / 4); base64_char (a mod 4 * 16 + b / 16);
        base64_char (b mod 16 * 4 + c / 64); base64_char (c mod 64) ]
      ++ base64_encode rest
  end%Z.

(** Modelled from the spec: [decode], base64 text to bytes; it stops
    at the first padded group. *)
Fixpoint base64_decode (s : jsstring) : list Z :=
  match s with
  | c1 :: c2 :: c3 :: c4 :: rest =>
      let v1 := base64_value c1 in
      let v2 := base64_value c2 in
      let v3 := base64_value c3 in
      let v4 := base64_value c4 in
      if N.eqb c3 base64_pad then [ v1 * 4 + v2 / 16 ]
      else if N.eqb c4 base64_pad
      then [ v1 * 4 + v2 / 16; v2 mod 16 * 16 + v3 / 4 ]
      else [ v1 * 4 + v2 / 16; v2 mod 16 * 16 + v3 / 4; v3 mod 4 * 64 + v4 ]
           ++ base64_decode rest
  | _ => []
  end%Z.

End Codec.

(* ================================================================= *)
(** ** The live session component *)

Module Live.
Import Js Codec.

Inductive Speaker : Type := user | model.

Record TranscriptionEntry : Type := mkEntry {
  speaker : Speaker;
  text : jsstring
}.

(** *** Browser objects *)

Inductive AudioContextState : Type := suspended | running | closed.

Record AudioContext : Type := mkContext {
  ctx_sampleRate : positive;
  ctx_state : AudioContextState
}.

Record MediaStream : Type := mkStream { getTracks : list nat }.

Inductive ScriptProcessorNode : Type := scriptProcessor.
Inductive MediaStreamAudioSourceNode : Type := mediaStreamSource.
Inductive LiveSession : Type := liveSession.

(** An [AudioBufferSourceNode]; [node_id] stands for the identity of
    the JavaScript object. *)
Record AudioBufferSourceNode : Type := mkSource {
  node_id : nat;
  buffer : AudioBuffer
}.

Inductive Side : Type := capture | playback.

(** Calls the component makes on browser and SDK objects. *)
Inductive Effect : Type :=
| SessionClose
| TrackStop (track : nat)
| ProcessorDisconnect
| StreamSourceDisconnect
| ContextClose (side : Side)
| SourceStart (source : AudioBufferSourceNode) (when : Q)
| SourceStop (source : AudioBufferSourceNode)
| SendRealtimeInput (media : Blob).

(** *** Component state: the [useState] values, the [useRef] cells, and
    the record of calls made so far (oldest first). *)

Record State : Type := mkState {
  isConnecting : bool;
  isSessionActive : bool;
  error : option jsstring;
  transcriptionHistory : list TranscriptionEntry;
  sessionPromiseRef : option LiveSession;
  inputAudioContextRef : option AudioContext;
  outputAudioContextRef : option AudioContext;
  scriptProcessorRef : option ScriptProcessorNode;
  mediaStreamSourceRef : option MediaStreamAudioSourceNode;
  streamRef : option MediaStream;
  currentInputTranscriptionRef : jsstring;
  currentOutputTranscriptionRef : jsstring;
  nextStartTimeRef : Q;
  (** A JavaScript [Set], kept in insertion order. *)
  audioSourcesRef : list AudioBufferSourceNode;
  trace : list Effect;
  next_node_id : nat
}.

(** The component as first rendered. *)
Definition initial : State :=
  {| isConnecting := false;
     isSessionActive := false;
     error := None;
     transcriptionHistory := [];
     sessionPromiseRef := None;
     inputAudioContextRef := None;
     outputAudioContextRef := None;
     scriptProcessorRef := None;
     mediaStreamSourceRef := None;
     streamRef := None;
     currentInputTranscriptionRef := [];
     currentOutputTranscriptionRef := [];
     nextStartTimeRef := 0;
     audioSourcesRef := [];
     trace := [];
     next_node_id := O |}.

(** Field updates. *)

Definition set_isConnecting v (s : State) : State :=
  {| isConnecting := v;
     isSessionActive := isSessionActive s;
     error := error s;
     transcriptionHistory := transcriptionHistory s;
     sessionPromiseRef := sessionPromiseRef s;
     inputAudioContextRef := inputAudioContextRef s;
     outputAudioContextRef := outputAudioContextRef s;
     scriptProcessorRef := scriptProcessorRef s;
     mediaStreamSourceRef := mediaStreamSourceRef s;
     streamRef := streamRef s;
     currentInputTranscriptionRef := currentInputTranscriptionRef s;
     currentOutputTranscriptionRef := currentOutputTranscriptionRef s;
     nextStartTimeRef := nextStartTimeRef s;
     audioSourcesRef := audioSourcesRef s;
     trace := trace s;
     next_node_id := next_node_id s |}.

Definition set_isSessionActive v (s : State) : State :=
  {| isConnecting := isConnecting s;
     isSessionActive := v;
     error := error s;
     transcriptionHistory := transcriptionHistory s;
     sessionPromiseRef := sessionPromiseRef s;
     inputAudioContextRef := inputAudioContextRef s;
     outputAudioContextRef := outputAudioContextRef s;
     scriptProcessorRef := scriptProcessorRef s;
     mediaStreamSourceRef := mediaStreamSourceRef s;
     streamRef := streamRef s;
     currentInputTranscriptionRef := currentInputTranscriptionRef s;
     currentOutputTranscriptionRef := currentOutputTranscriptionRef s;
     nextStartTimeRef := nextStartTimeRef s;
     audioSourcesRef := audioSourcesRef s;
     trace := trace s;
     next_node_id := next_node_id s |}.

Definition set_error v (s : State) : State :=
  {| isConnecting := isConnecting s;
     isSessionActive := isSessionActive s;
     error := v;
     transcriptionHistory := transcriptionHistory s;
     sessionPromiseRef := sessionPromiseRef s;
     inputAudioContextRef := inputAudioContextRef s;
     outputAudioContextRef := outputAudioContextRef s;
     scriptProcessorRef := scriptProcessorRef s;
     mediaStreamSourceRef := mediaStreamSourceRef s;
     streamRef := streamRef s;
     currentInputTranscriptionRef := currentInputTranscriptionRef s;
     currentOutputTranscriptionRef := currentOutputTranscriptionRef s;
     nextStartTimeRef := nextStartTimeRef s;
     audioSourcesRef := audioSourcesRef s;
     trace := trace s;
     next_node_id := next_node_id s |}.

Definition set_transcriptionHistory v (s : State) : State :=
  {| isConnecting := isConnecting s;
     isSessionActive := isSessionActive s;
     error := error s;
     transcriptionHistory := v;
     sessionPromiseRef := sessionPromiseRef s;
     inputAudioContextRef := inputAudioContextRef s;
     outputAudioContextRef := outputAudioContextRef s;
     scriptProcessorRef := scriptProcessorRef s;
     mediaStreamSourceRef := mediaStreamSourceRef s;
     streamRef := streamRef s;
     currentInputTranscriptionRef := currentInputTranscriptionRef s;
     currentOutputTranscriptionRef := currentOutputTranscriptionRef s;
     nextStartTimeRef := nextStartTimeRef s;
     audioSourcesRef := audioSourcesRef s;
     trace := trace s;
     next_node_id := next_node_id s |}.

Definition set_sessionPromiseRef v (s : State) : State :=
  {| isConnecting := isConnecting s;
     isSessionActive := isSessionActive s;
     error := error s;
     transcriptionHistory := transcriptionHistory s;
     sessionPromiseRef := v;
     inputAudioContextRef := inputAudioContextRef s;
     outputAudioContextRef := outputAudioContextRef s;
     scriptProcessorRef := scriptProcessorRef s;
     mediaStreamSourceRef := mediaStreamSourceRef s;
     streamRef := streamRef s;
     currentInputTranscriptionRef := currentInputTranscriptionRef s;
     currentOutputTranscriptionRef := currentOutputTranscriptionRef s;
     nextStartTimeRef := nextStartTimeRef s;
     audioSourcesRef := audioSourcesRef s;
     trace := trace s;
     next_node_id := next_node_id s |}.

Definition set_inputAudioContextRef v (s : State) : State :=
  {| isConnecting := isConnecting s;
     isSessionActive := isSessionActive s;
     error := error s;
     transcriptionHistory := transcriptionHistory s;
     sessionPromiseRef := sessionPromiseRef s;
     inputAudioContextRef := v;
     outputAudioContextRef := outputAudioContextRef s;
     scriptProcessorRef := scriptProcessorRef s;
     mediaStreamSourceRef := mediaStreamSourceRef s;
     streamRef := streamRef s;
     currentInputTranscriptionRef := currentInputTranscriptionRef s;
     currentOutputTranscriptionRef := currentOutputTranscriptionRef s;
     nextStartTimeRef := nextStartTimeRef s;
     audioSourcesRef := audioSourcesRef s;
     trace := trace s;
     next_node_id := next_node_id s |}.

Definition set_outputAudioContextRef v (s : State) : State :=
  {| isConnecting := isConnecting s;
     isSessionActive := isSessionActive s;
     error := error s;
     transcriptionHistory := transcriptionHistory s;
     sessionPromiseRef := sessionPromiseRef s;
     inputAudioContextRef := inputAudioContextRef s;
     outputAudioContextRef := v;
     scriptProcessorRef := scriptProcessorRef s;
     mediaStreamSourceRef := mediaStreamSourceRef s;
     streamRef := streamRef s;
     currentInputTranscriptionRef := currentInputTranscriptionRef s;
     currentOutputTranscriptionRef := currentOutputTranscriptionRef s;
     nextStartTimeRef := nextStartTimeRef s;
     audioSourcesRef := audioSourcesRef s;
     trace := trace s;
     next_node_id := next_node_id s |}.

Definition set_scriptProcessorRef v (s : State) : State :=
  {| isConnecting := isConnecting s;
     isSessionActive := isSessionActive s;
     error := error s;
     transcriptionHistory := transcriptionHistory s;
     sessionPromiseRef := sessionPromiseRef s;
     inputAudioContextRef := inputAudioContextRef s;
     outputAudioContextRef := outputAudioContextRef s;
     scriptProcessorRef := v;
     mediaStreamSourceRef := mediaStreamSourceRef s;
     streamRef := streamRef s;
     currentInputTranscriptionRef := currentInputTranscriptionRef s;
     currentOutputTranscriptionRef := currentOutputTranscriptionRef s;
     nextStartTimeRef := nextStartTimeRef s;
     audioSourcesRef := audioSourcesRef s;
     trace := trace s;
     next_node_id := next_node_id s |}.

Definition set_mediaStreamSourceRef v (s : State) : State :=
  {| isConnecting := isConnecting s;
     isSessionActive := isSessionActive s;
     error := error s;
     transcriptionHistory := transcriptionHistory s;
     sessionPromiseRef := sessionPromiseRef s;
     inputAudioContextRef := inputAudioContextRef s;
     outputAudioContextRef := outputAudioContextRef s;
     scriptProcessorRef := scriptProcessorRef s;
     mediaStreamSourceRef := v;
     streamRef := streamRef s;
     currentInputTranscriptionRef := currentInputTranscriptionRef s;
     currentOutputTranscriptionRef := currentOutputTranscriptionRef s;
     nextStartTimeRef := nextStartTimeRef s;
     audioSourcesRef := audioSourcesRef s;
     trace := trace s;
     next_node_id := next_node_id s |}.

Definition set_streamRef v (s : State) : State :=
  {| isConnecting := isConnecting s;
     isSessionActive := isSessionActive s;
     error := error s;
     transcriptionHistory := transcriptionHistory s;
     sessionPromiseRef := sessionPromiseRef s;
     inputAudioContextRef := inputAudioContextRef s;
     outputAudioContextRef := outputAudioContextRef s;
     scriptProcessorRef := scriptProcessorRef s;
     mediaStreamSourceRef := mediaStreamSourceRef s;
     streamRef := v;
     currentInputTranscriptionRef := currentInputTranscriptionRef s;
     currentOutputTranscriptionRef := currentOutputTranscriptionRef s;
     nextStartTimeRef := nextStartTimeRef s;
     audioSourcesRef := audioSourcesRef s;
     trace := trace s;
     next_node_id := next_node_id s |}.

Definition set_currentInputTranscriptionRef v (s : State) : State :=
  {| isConnecting := isConnecting s;
     isSessionActive := isSessionActive s;
     error := error s;
     transcriptionHistory := transcriptionHistory s;
     sessionPromiseRef := sessionPromiseRef s;
     inputAudioContextRef := inputAudioContextRef s;
     outputAudioContextRef := outputAudioContextRef s;
     scriptProcessorRef := scriptProcessorRef s;
     mediaStreamSourceRef := mediaStreamSourceRef s;
     streamRef := streamRef s;
     currentInputTranscriptionRef := v;
     currentOutputTranscriptionRef := currentOutputTranscriptionRef s;
     nextStartTimeRef := nextStartTimeRef s;
     audioSourcesRef := audioSourcesRef s;
     trace := trace s;
     next_node_id := next_node_id s |}.

Definition set_currentOutputTranscriptionRef v (s : State) : State :=
  {| isConnecting := isConnecting s;
     isSessionActive := isSessionActive s;
     error := error s;
     transcriptionHistory := transcriptionHistory s;
     sessionPromiseRef := sessionPromiseRef s;
     inputAudioContextRef := inputAudioContextRef s;
     outputAudioContextRef := outputAudioContextRef s;
     scriptProcessorRef := scriptProcessorRef s;
     mediaStreamSourceRef := mediaStreamSourceRef s;
     streamRef := streamRef s;
     currentInputTranscriptionRef := currentInputTranscriptionRef s;
     currentOutputTranscriptionRef := v;
     nextStartTimeRef := nextStartTimeRef s;
     audioSourcesRef := audioSourcesRef s;
     trace := trace s;
     next_node_id := next_node_id s |}.

Definition set_nextStartTimeRef v (s : State) : State :=
  {| isConnecting := isConnecting s;
     isSessionActive := isSessionActive s;
     error := error s;
     transcriptionHistory := transcriptionHistory s;
     sessionPromiseRef := sessionPromiseRef s;
     inputAudioContextRef := inputAudioContextRef s;
     outputAudioContextRef := outputAudioContextRef s;
     scriptProcessorRef := scriptProcessorRef s;
     mediaStreamSourceRef := mediaStreamSourceRef s;
     streamRef := streamRef s;
     currentInputTranscriptionRef := currentInputTranscriptionRef s;
     currentOutputTranscriptionRef := currentOutputTranscriptionRef s;
     nextStartTimeRef := v;
     audioSourcesRef := audioSourcesRef s;
     trace := trace s;
     next_node_id := next_node_id s |}.

Definition set_audioSourcesRef v (s : State) : State :=
  {| isConnecting := isConnecting s;
     isSessionActive := isSessionActive s;
     error := error s;
     transcriptionHistory := transcriptionHistory s;
     sessionPromiseRef := sessionPromiseRef s;
     inputAudioContextRef := inputAudioContextRef s;
     outputAudioContextRef := outputAudioContextRef s;
     scriptProcessorRef := scriptProcessorRef s;
     mediaStreamSourceRef := mediaStreamSourceRef s;
     streamRef := streamRef s;
     currentInputTranscriptionRef := currentInputTranscriptionRef s;
     currentOutputTranscriptionRef := currentOutputTranscriptionRef s;
     nextStartTimeRef := nextStartTimeRef s;
     audioSourcesRef := v;
     trace := trace s;
     next_node_id := next_node_id s |}.

Definition set_trace v (s : State) : State :=
  {| isConnecting := isConnecting s;
     isSessionActive := isSessionActive s;
     error := error s;
     transcriptionHistory := transcriptionHistory s;
     sessionPromiseRef := sessionPromiseRef s;
     inputAudioContextRef := inputAudioContextRef s;
     outputAudioContextRef := outputAudioContextRef s;
     scriptProcessorRef := scriptProcessorRef s;
     mediaStreamSourceRef := mediaStreamSourceRef s;
     streamRef := streamRef s;
     currentInputTranscriptionRef := currentInputTranscriptionRef s;
     currentOutputTranscriptionRef := currentOutputTranscriptionRef s;
     nextStartTimeRef := nextStartTimeRef s;
     audioSourcesRef := audioSourcesRef s;
     trace := v;
     next_node_id := next_node_id s |}.

Definition set_next_node_id v (s : State) : State :=
  {| isConnecting := isConnecting s;
     isSessionActive := isSessionActive s;
     error := error s;
     transcriptionHistory := transcriptionHistory s;
     sessionPromiseRef := sessionPromiseRef s;
     inputAudioContextRef := inputAudioContextRef s;
     outputAudioContextRef := outputAudioContextRef s;
     scriptProcessorRef := scriptProcessorRef s;
     mediaStreamSourceRef := mediaStreamSourceRef s;
     streamRef := streamRef s;
     currentInputTranscriptionRef := currentInputTranscriptionRef s;
     currentOutputTranscriptionRef := currentOutputTranscriptionRef s;
     nextStartTimeRef := nextStartTimeRef s;
     audioSourcesRef := audioSourcesRef s;
     trace := trace s;
     next_node_id := v |}.

(** *** Execution: state passing with JavaScript exceptions.  A throw
    keeps every mutation made before it. *)

Inductive Outcome (A : Type) : Type :=
| Ok (a : A)
| Throw (message : jsstring).
Arguments Ok {A} a.
Arguments Throw {A} message.

Definition Exec (A : Type) : Type := State -> Outcome A * State.

Definition ret {A : Type} (a : A) : Exec A := fun s => (Ok a, s).

Definition throw {A : Type} (e : jsstring) : Exec A := fun s => (Throw e, s).

Definition bind {A B : Type} (c : Exec A) (k : A -> Exec B) : Exec B :=
  fun s =>
    match c s with
    | (Ok a, s') => k a s'
    | (Throw e, s') => (Throw e, s')
    end.

Notation "x <- c ;; k" := (bind c (fun x => k))
  (at level 61, c at next level, right associativity).
Notation "c ;; k" := (bind c (fun _ => k))
  (at level 61, right associativity).

Definition lift {A : Type} (o : Outcome A) : Exec A := fun s => (o, s).

Definition read {A : Type} (f : State -> A) : Exec A := fun s => (Ok (f s), s).

Definition modify (f : State -> State) : Exec unit := fun s => (Ok tt, f s).

(** A call on a browser object, appended to the record of calls. *)
Definition call (e : Effect) : Exec unit :=
  modify (fun s => set_trace (trace s ++ [e]) s).

Definition try_catch {A : Type} (body : Exec A) (handler : jsstring -> Exec A)
  : Exec A :=
  fun s =>
    match body s with
    | (Ok a, s') => (Ok a, s')
    | (Throw e, s') => handler e s'
    end.

Definition when (b : bool) (c : Exec unit) : Exec unit :=
  if b then c else ret tt.

Fixpoint forEach {A : Type} (l : list A) (f : A -> Exec unit) : Exec unit :=
  match l with
  | [] => ret tt
  | a :: r => f a ;; forEach r f
  end.

(** The state a computation leaves behind, thrown or not. *)
Definition exec {A : Type} (c : Exec A) (s : State) : State := snd (c s).

Definition outcome {A : Type} (c : Exec A) (s : State) : Outcome A := fst (c s).

Definition raises {A : Type} (c : Exec A) (s : State) : bool :=
  match outcome c s with Ok _ => false | Throw _ => true end.

(** *** Browser calls *)

Definition is_closed (ctx : AudioContext) : bool :=
  match ctx_state ctx with closed => true | _ => false end.

(** [AudioContext.close()] of the Web Audio API: fails with
    InvalidStateError on a context whose state is already closed,
    otherwise sets the state, which the [state] attribute returns, to
    closed and releases the device. *)
Definition AudioContext_close (side : Side) (ctx : AudioContext)
  : Exec AudioContext :=
  if is_closed ctx
  then throw (js "InvalidStateError")
  else call (ContextClose side) ;;
       ret {| ctx_sampleRate := ctx_sampleRate ctx; ctx_state := closed |}.

Definition same_node (a b : AudioBufferSourceNode) : bool :=
  Nat.eqb (node_id a) (node_id b).

(** [Set.prototype.add] and [Set.prototype.delete]. *)
Definition Set_add (x : AudioBufferSourceNode)
           (l : list AudioBufferSourceNode) : list AudioBufferSourceNode :=
  if existsb (same_node x) l then l else l ++ [x].

Definition Set_delete (x : AudioBufferSourceNode)
           (l : list AudioBufferSourceNode) : list AudioBufferSourceNode :=
  filter (fun y => negb (same_node x y)) l.

(** *** [stopSession], lines 44-78 *)

Definition stopSession : Exec unit :=
  sessionPromise <- read sessionPromiseRef ;;
  match sessionPromise with
  | Some _ => call SessionClose ;; modify (set_sessionPromiseRef None)
  | None => ret tt
  end ;;
  stream <- read streamRef ;;
  match stream with
  | Some st =>
      forEach (getTracks st) (fun track => call (TrackStop track)) ;;
      modify (set_streamRef None)
  | None => ret tt
  end ;;
  processor <- read scriptProcessorRef ;;
  match processor with
  | Some _ => call ProcessorDisconnect ;; modify (set_scriptProcessorRef None)
  | None => ret tt
  end ;;
  streamSource <- read mediaStreamSourceRef ;;
  match streamSource with
  | Some _ =>
      call StreamSourceDisconnect ;; modify (set_mediaStreamSourceRef None)
  | None => ret tt
  end ;;
  inputContext <- read inputAudioContextRef ;;
  match inputContext with
  | Some ctx =>
      if is_closed ctx then ret tt
      else ctx' <- AudioContext_close capture ctx ;;
           modify (set_inputAudioContextRef (Some ctx'))
  | None => ret tt
  end ;;
  outputContext <- read outputAudioContextRef ;;
  match outputContext with
  | Some ctx =>
      if is_closed ctx then ret tt
      else ctx' <- AudioContext_close playback ctx ;;
           modify (set_outputAudioContextRef (Some ctx'))
  | None => ret tt
  end ;;
  sources <- read audioSourcesRef ;;
  forEach sources (fun source => call (SourceStop source)) ;;
  modify (set_audioSourcesRef []) ;;
  modify (set_nextStartTimeRef 0) ;;
  modify (set_isSessionActive false) ;;
  modify (set_isConnecting false).

(** *** [startSession], lines 87-185 *)

(** What the browser and the SDK answer to the calls of
    [startSession]: each either returns or throws. *)
Record Browser : Type := mkBrowser {
  getUserMedia : Outcome MediaStream;
  new_input_AudioContext : Outcome AudioContextState;
  new_output_AudioContext : Outcome AudioContextState;
  new_GoogleGenAI : Outcome unit;
  live_connect : Outcome LiveSession
}.

Definition startSession (env : Browser) : Exec unit :=
  modify (set_error None) ;;
  modify (set_isConnecting true) ;;
  modify (set_transcriptionHistory []) ;;
  try_catch
    (stream <- lift (getUserMedia env) ;;
     modify (set_streamRef (Some stream)) ;;
     st_in <- lift (new_input_AudioContext env) ;;
     modify (set_inputAudioContextRef
               (Some {| ctx_sampleRate := 16000; ctx_state := st_in |})) ;;
     st_out <- lift (new_output_AudioContext env) ;;
     modify (set_outputAudioContextRef
               (Some {| ctx_sampleRate := 24000; ctx_state := st_out |})) ;;
     lift (new_GoogleGenAI env) ;;
     session <- lift (live_connect env) ;;
     modify (set_sessionPromiseRef (Some session)))
    (fun message =>
       modify (set_error (Some (js "Failed to start session: " ++ message))) ;;
       modify (set_isConnecting false)).

(** *** The callbacks given to [ai.live.connect] *)

Definition onopen : Exec unit :=
  modify (set_isConnecting false) ;;
  modify (set_isSessionActive true) ;;
  stream <- read streamRef ;;
  inputContext <- read inputAudioContextRef ;;
  match stream, inputContext with
  | Some _, Some _ =>
      modify (set_mediaStreamSourceRef (Some mediaStreamSource)) ;;
      modify (set_scriptProcessorRef (Some scriptProcessor))
  | _, _ => ret tt
  end.

(** [onaudioprocess]: the outbound path. *)
Definition onaudioprocess (encode : list Z -> jsstring) (inputData : list Q)
  : Exec unit :=
  let pcmBlob := createBlob encode inputData in
  sessionPromise <- read sessionPromiseRef ;;
  match sessionPromise with
  | Some _ => call (SendRealtimeInput pcmBlob)
  | None => ret tt
  end.

Record Transcription : Type := mkTranscription {
  transcription_text : option jsstring
}.

(** The fields of a [LiveServerMessage] that [onmessage] inspects;
    [None] stands for [undefined]. *)
Record LiveServerMessage : Type := mkMessage {
  inlineData : option jsstring;
  interrupted : bool;
  outputTranscription : option Transcription;
  inputTranscription : option Transcription;
  turnComplete : bool
}.

(** String concatenation with a possibly undefined operand. *)
Definition concat_text (s : jsstring) (t : Transcription) : jsstring :=
  s ++ match transcription_text t with
       | Some x => x
       | None => js "undefined"
       end.

(** Line 128: the cursor is raised to the device clock. *)
Definition schedule_prepare (currentTime : Q) : Exec unit :=
  modify (fun s =>
    set_nextStartTimeRef (Qmax (nextStartTimeRef s) currentTime) s).

(** Lines 130-136: a source node is created for the decoded buffer,
    started at the cursor, the cursor advanced by the buffer's
    duration, the node added to the set. *)
Definition schedule_commit (audioBuffer : AudioBuffer) : Exec unit :=
  outputContext <- read outputAudioContextRef ;;
  match outputContext with
  | None => throw (js "TypeError")
  | Some _ =>
      id <- read next_node_id ;;
      modify (set_next_node_id (S id)) ;;
      let source := {| node_id := id; buffer := audioBuffer |} in
      start <- read nextStartTimeRef ;;
      call (SourceStart source start) ;;
      modify (set_nextStartTimeRef (start + duration audioBuffer)) ;;
      modify (fun s => set_audioSourcesRef (Set_add source (audioSourcesRef s)) s)
  end.

(** The listener of a source's [ended] event. *)
Definition source_ended (source : AudioBufferSourceNode) : Exec unit :=
  modify (fun s =>
    set_audioSourcesRef (Set_delete source (audioSourcesRef s)) s).

(** Lines 140-142: the reaction to an interruption. *)
Definition flush : Exec unit :=
  sources <- read audioSourcesRef ;;
  forEach sources (fun source => call (SourceStop source)) ;;
  modify (set_audioSourcesRef []) ;;
  modify (set_nextStartTimeRef 0).

(** Lines 152-163: the reaction to a completed turn. *)
Definition finalize_turn : Exec unit :=
  fullInput <- read currentInputTranscriptionRef ;;
  fullOutput <- read currentOutputTranscriptionRef ;;
  modify (fun s =>
    let prev := transcriptionHistory s in
    let newHistory := prev in
    let newHistory :=
      if truthy (trim fullInput)
      then newHistory ++ [ {| speaker := user; text := fullInput |} ]
      else newHistory in
    let newHistory :=
      if truthy (trim fullOutput)
      then newHistory ++ [ {| speaker := model; text := fullOutput |} ]
      else newHistory in
    set_transcriptionHistory newHistory s) ;;
  modify (set_currentInputTranscriptionRef []) ;;
  modify (set_currentOutputTranscriptionRef []).

(** Lines 139-164: what [onmessage] does after the audio part. *)
Definition onmessage_rest (message : LiveServerMessage) : Exec unit :=
  when (interrupted message) flush ;;
  match outputTranscription message with
  | Some t =>
      modify (fun s =>
        set_currentOutputTranscriptionRef
          (concat_text (currentOutputTranscriptionRef s) t) s)
  | None => ret tt
  end ;;
  match inputTranscription message with
  | Some t =>
      modify (fun s =>
        set_currentInputTranscriptionRef
          (concat_text (currentInputTranscriptionRef s) t) s)
  | None => ret tt
  end ;;
  when (turnComplete message) finalize_turn.

Definition has_audio (message : LiveServerMessage) : bool :=
  match inlineData message with
  | Some base64EncodedAudioString => truthy base64EncodedAudioString
  | None => false
  end.

(** [onmessage] is asynchronous: it runs up to its [await] (line 129)
    and is resumed later with the decoded buffer, or with the
    exception the decode threw. *)
Inductive Progress : Type := Finished | AwaitingDecode.

Definition onmessage_begin (currentTime : Q) (message : LiveServerMessage)
  : Exec Progress :=
  outputContext <- read outputAudioContextRef ;;
  match has_audio message, outputContext with
  | true, Some _ => schedule_prepare currentTime ;; ret AwaitingDecode
  | _, _ => onmessage_rest message ;; ret Finished
  end.

Definition onmessage_resume (message : LiveServerMessage)
           (decoded : Outcome AudioBuffer) : Exec unit :=
  audioBuffer <- lift decoded ;;
  schedule_commit audioBuffer ;;
  onmessage_rest message.


Definition onerror (message : jsstring) : Exec unit :=
  modify (set_error (Some (js "Session error: " ++ message))) ;;
  stopSession.

Definition onclose : Exec unit := stopSession.

(** The scheduler's [schedule()] of the spec is the audio part of
    [onmessage] run without interleaving. *)
Definition schedule (request : Q * AudioBuffer) : Exec unit :=
  schedule_prepare (fst request) ;; schedule_commit (snd request).

(** *** Vocabulary for the statements below *)

(** The segment a [start] call places on the output timeline: its
    start time and its end time. *)
Definition segment_of (e : Effect) : list (Q * Q) :=
  match e with
  | SourceStart source start => [ (start, start + duration (buffer source)) ]
  | _ => []
  end.

Definition segments (calls : list Effect) : list (Q * Q) :=
  flat_map segment_of calls.

Definition count (p : Effect -> bool) (calls : list Effect) : nat :=
  List.length (filter p calls).


Definition is_TrackStop (t : nat) (e : Effect) : bool :=
  match e with TrackStop t' => Nat.eqb t t' | _ => false end.




Definition is_release (e : Effect) : bool :=
  match e with
  | SessionClose | TrackStop _ | ProcessorDisconnect
  | StreamSourceDisconnect | ContextClose _ => true
  | _ => false
  end.

(** The release calls [stopSession] owes to a state: one per resource
    still held. *)
Definition release_calls (s : State) : list Effect :=
  match sessionPromiseRef s with Some _ => [SessionClose] | None => [] end ++
  match streamRef s with
  | Some st => map TrackStop (getTracks st)
  | None => []
  end ++
  match scriptProcessorRef s with
  | Some _ => [ProcessorDisconnect]
  | None => []
  end ++
  match mediaStreamSourceRef s with
  | Some _ => [StreamSourceDisconnect]
  | None => []
  end ++
  match inputAudioContextRef s with
  | Some ctx => if is_closed ctx then [] else [ContextClose capture]
  | None => []
  end ++
  match outputAudioContextRef s with
  | Some ctx => if is_closed ctx then [] else [ContextClose playback]
  | None => []
  end.

(** The entries a completed turn appends, in the spec's words: one per
    non-empty buffer, the user's first. *)
Definition spec_turn_entries (fullInput fullOutput : jsstring)
  : list TranscriptionEntry :=
  (if truthy fullInput
   then [ {| speaker := user; text := fullInput |} ] else []) ++
  (if truthy fullOutput
   then [ {| speaker := model; text := fullOutput |} ] else []).

(** A string made of whitespace only (the empty string included). *)
Definition blank (s : jsstring) : bool := forallb is_whitespace s.

(** The state [stopSession] leaves behind. *)
Definition close_context (ctx : AudioContext) : AudioContext :=
  {| ctx_sampleRate := ctx_sampleRate ctx; ctx_state := closed |}.

Definition stopped (s : State) : State :=
  {| isConnecting := false;
     isSessionActive := false;
     error := error s;
     transcriptionHistory := transcriptionHistory s;
     sessionPromiseRef := None;
     inputAudioContextRef := option_map close_context (inputAudioContextRef s);
     outputAudioContextRef := option_map close_context (outputAudioContextRef s);
     scriptProcessorRef := None;
     mediaStreamSourceRef := None;
     streamRef := None;
     currentInputTranscriptionRef := currentInputTranscriptionRef s;
     currentOutputTranscriptionRef := currentOutputTranscriptionRef s;
     nextStartTimeRef := 0;
     audioSourcesRef := [];
     trace := trace s ++ release_calls s ++ map SourceStop (audioSourcesRef s);
     next_node_id := next_node_id s |}.

(** A server message that carries nothing but the turn-complete
    flag. *)
Definition turn_complete_event : LiveServerMessage :=
  {| inlineData := None;
     interrupted := false;
     outputTranscription := None;
     inputTranscription := None;
     turnComplete := true |}.

(** A state whose two accumulation buffers hold the given texts. *)
Definition with_buffers (fullInput fullOutput : jsstring) (s : State) : State :=
  set_currentOutputTranscriptionRef fullOutput
    (set_currentInputTranscriptionRef fullInput s).

(** The timeline in the spec's words: each request starts at the later
    of the cursor and the device clock, and moves the cursor to its
    end. *)
Fixpoint spec_timeline (cursor : Q) (requests : list (Q * AudioBuffer))
  : list (Q * Q) :=
  match requests with
  | [] => []
  | (now, audioBuffer) :: rest =>
      let start := Qmax cursor now in
      (start, start + duration audioBuffer)
        :: spec_timeline (start + duration audioBuffer) rest
  end.

(** Segments that do not overlap: each ends before every later one
    starts. *)
Definition back_to_back (l : list (Q * Q)) : Prop :=
  ForallOrdPairs (fun A B => snd A <= fst B) l.

(** *** Sample inputs *)

(** A browser in which every call of [startSession] succeeds. *)
Definition working_browser : Browser :=
  {| getUserMedia := Ok {| getTracks := [O] |};
     new_input_AudioContext := Ok running;
     new_output_AudioContext := Ok running;
     new_GoogleGenAI := Ok tt;
     live_connect := Ok liveSession |}.

(** A browser that grants the microphone and the audio contexts, and
    then throws from the SDK constructor. *)
Definition failing_browser : Browser :=
  {| getUserMedia := Ok {| getTracks := [O] |};
     new_input_AudioContext := Ok running;
     new_output_AudioContext := Ok running;
     new_GoogleGenAI := Throw (js "An API Key must be set");
     live_connect := Ok liveSession |}.

(** The component after a successful start and the [onopen] callback. *)
Definition active_session : State :=
  exec onopen (exec (startSession working_browser) initial).



Definition silence (frames : nat) : AudioBuffer :=
  {| channelData := repeat 0 frames; sampleRate := 24000 |}.

(** The scheduler under interleaving: between the two halves of one
    [onmessage] other handlers may run.  A step is the part before the
    [await], the part after it, or the end of a source; interruptions
    and teardown are not steps. *)
Inductive scheduler_step : State -> State -> Prop :=
| step_prepare (currentTime : Q) (s : State) :
    scheduler_step s (exec (schedule_prepare currentTime) s)
| step_commit (audioBuffer : AudioBuffer) (s : State) :
    scheduler_step s (exec (schedule_commit audioBuffer) s)
| step_ended (source : AudioBufferSourceNode) (s : State) :
    scheduler_step s (exec (source_ended source) s).

Inductive scheduler_run : State -> State -> Prop :=
| run_done (s : State) : scheduler_run s s
| run_step (s1 s2 s3 : State) :
    scheduler_step s1 s2 -> scheduler_run s2 s3 -> scheduler_run s1 s3.

(** The segments started so far do not overlap and all end at or
    before the cursor. *)
Definition timeline_ok (s : State) : Prop :=
  back_to_back (segments (trace s)) /\
  Forall (fun seg => snd seg <= nextStartTimeRef s) (segments (trace s)).

End Live.

(* ================================================================= *)
(** ** The component as a whole: its button and its callbacks *)

Module Component.
Import Js Codec Live.

(** The button of the component, lines 207-209: it is disabled while
    connecting, stops an active session, and starts one otherwise. *)
Definition click (env : Browser) : Exec unit :=
  fun s =>
    if isConnecting s then (Ok tt, s)
    else if isSessionActive s then stopSession s
    else startSession env s.

(** Server messages that carry one piece of transcribed text. *)
Definition input_text_event (t : jsstring) : LiveServerMessage :=
  {| inlineData := None;
     interrupted := false;
     outputTranscription := None;
     inputTranscription := Some {| transcription_text := Some t |};
     turnComplete := false |}.

Definition output_text_event (t : jsstring) : LiveServerMessage :=
  {| inlineData := None;
     interrupted := false;
     outputTranscription := Some {| transcription_text := Some t |};
     inputTranscription := None;
     turnComplete := false |}.

(** Everything that can run on the component: the button, the
    callbacks given to [ai.live.connect], the two halves of
    [onmessage], the [ended] listener of a source, the sampler's
    callback, and the cleanup on unmount. *)
Inductive Event : Type :=
| Click (env : Browser)
| Open
| MessageBegin (currentTime : Q) (message : LiveServerMessage)
| MessageResume (message : LiveServerMessage) (decoded : Outcome AudioBuffer)
| Ended (source : AudioBufferSourceNode)
| AudioProcess (inputData : list Q)
| Error (message : jsstring)
| Close
| Unmount.

Section Handlers.
Variable encode : list Z -> jsstring.

Definition handle (e : Event) : Exec unit :=
  match e with
  | Click env => click env
  | Open => onopen
  | MessageBegin currentTime message =>
      onmessage_begin currentTime message ;; ret tt
  | MessageResume message decoded => onmessage_resume message decoded
  | Ended source => source_ended source
  | AudioProcess inputData => onaudioprocess encode inputData
  | Error message => onerror message
  | Close => onclose
  | Unmount => stopSession
  end.

(** The state after a sequence of events; an event that throws leaves
    the mutations it made. *)
Definition run_events (events : list Event) (s : State) : State :=
  fold_left (fun st e => exec (handle e) st) events s.
End Handlers.


(** Every source of the set has been started and was created before
    the next identity to be handed out, and no two sources of the set
    share an identity. *)
Definition sources_started (s : State) : Prop :=
  Forall (fun source =>
            (node_id source < next_node_id s)%nat /\
            exists start, In (SourceStart source start) (trace s))
         (audioSourcesRef s) /\
  NoDup (map node_id (audioSourcesRef s)).

End Component.

(* ================================================================= *)
(** ** The WAV writer of the text-to-speech component *)

Module Wave.
Import Js Codec.

(** An [AudioBuffer] as [bufferToWave] reads it: its channels and its
    sample rate (an integer number of hertz). *)
Record PlanarBuffer : Type := mkPlanar {
  getChannelData : list (list Q);
  planar_sampleRate : Z
}.

Definition numberOfChannels (abuffer : PlanarBuffer) : nat :=
  List.length (getChannelData abuffer).

(** [AudioBuffer.length]: the number of sample frames. *)
Definition frames (abuffer : PlanarBuffer) : nat :=
  match getChannelData abuffer with
  | ch :: _ => List.length ch
  | [] => O
  end.

(** The [DataView] over the output buffer together with the write
    position [pos] the helper functions share. *)
Record Writer : Type := mkWriter {
  view : list Z;
  pos : nat
}.

(** The low [n] bytes of an integer, low byte first: what a
    little-endian [DataView] setter of [n] bytes stores. *)
Fixpoint le_bytes (n : nat) (v : Z) : list Z :=
  match n with
  | O => []
  | S n' => (v mod 256)%Z :: le_bytes n' (v / 256)%Z
  end.

(** A [DataView] store of some bytes at an offset; [None] is the
    RangeError of a store that does not fit in the buffer. *)
Definition store (offset : nat) (bytes : list Z) (v : list Z)
  : option (list Z) :=
  if (offset + List.length bytes <=? List.length v)%nat
  then Some (firstn offset v ++ bytes
             ++ skipn (offset + List.length bytes) v)
  else None.

Definition put (width : nat) (data : Z) (w : Writer) : option Writer :=
  match store (pos w) (le_bytes width data) (view w) with
  | Some v => Some {| view := v; pos := pos w + width |}
  | None => None
  end.

(** [setUint16] and [setUint32], the two local helpers, and the
    [view.setInt16(pos, sample, true); pos += 2] of the loop. *)
Definition setUint16 (data : Z) : Writer -> option Writer := put 2 data.
Definition setUint32 (data : Z) : Writer -> option Writer := put 4 data.
Definition setInt16 (sample : Z) : Writer -> option Writer := put 2 sample.

Notation "x <- c ;; k" :=
  (match c with Some x => k | None => None end)
  (at level 61, c at next level, right associativity).

(** The sample written for [channels[i][offset]].  Past the end of the
    channel the read gives [undefined], the clamp gives NaN, and
    [NaN | 0] is 0. *)
Definition channel_sample (channel : list Q) (offset : nat) : Z :=
  match nth_error channel offset with
  | Some x => wave_sample x
  | None => 0%Z
  end.

(** The inner [for] loop: one sample of every channel. *)
Fixpoint write_frame (channels : list (list Q)) (offset : nat) (w : Writer)
  : option Writer :=
  match channels with
  | [] => Some w
  | channel :: rest =>
      w' <- setInt16 (channel_sample channel offset) w ;;
      write_frame rest offset w'
  end.

(** The [while (pos < length)] loop, with fuel; [None] also stands for
    fuel that ran out. *)
Fixpoint write_frames (fuel : nat) (channels : list (list Q)) (length : nat)
         (offset : nat) (w : Writer) : option Writer :=
  if (pos w <? length)%nat
  then match fuel with
       | O => None
       | S fuel' =>
           w' <- write_frame channels offset w ;;
           write_frames fuel' channels length (S offset) w'
       end
  else Some w.

(** [bufferToWave], lines 64-115 of the text-to-speech component: the
    bytes of the blob it returns. *)
Definition bufferToWave (abuffer : PlanarBuffer) (len : nat)
  : option (list Z) :=
  let numOfChan := numberOfChannels abuffer in
  let length := (len * numOfChan * 2 + 44)%nat in
  let rate := planar_sampleRate abuffer in
  let w := {| view := repeat 0%Z length; pos := O |} in
  w <- setUint32 0x46464952 w ;;
  w <- setUint32 (Z.of_nat length - 8) w ;;
  w <- setUint32 0x45564157 w ;;
  w <- setUint32 0x20746d66 w ;;
  w <- setUint32 16 w ;;
  w <- setUint16 1 w ;;
  w <- setUint16 (Z.of_nat numOfChan) w ;;
  w <- setUint32 rate w ;;
  w <- setUint32 (rate * 2 * Z.of_nat numOfChan) w ;;
  w <- setUint16 (Z.of_nat numOfChan * 2) w ;;
  w <- setUint16 16 w ;;
  w <- setUint32 0x61746164 w ;;
  w <- setUint32 (Z.of_nat length - Z.of_nat (pos w) - 4) w ;;
  w <- write_frames length (getChannelData abuffer) length O w ;;
  Some (view w).

(** The file described as a whole: the 44 bytes of the header, then the
    samples frame by frame, the channels interleaved. *)
Definition wav_header (numOfChan : nat) (rate : Z) (length : nat) : list Z :=
  le_bytes 4 0x46464952 ++ le_bytes 4 (Z.of_nat length - 8) ++
  le_bytes 4 0x45564157 ++ le_bytes 4 0x20746d66 ++ le_bytes 4 16 ++
  le_bytes 2 1 ++ le_bytes 2 (Z.of_nat numOfChan) ++ le_bytes 4 rate ++
  le_bytes 4 (rate * 2 * Z.of_nat numOfChan) ++
  le_bytes 2 (Z.of_nat numOfChan * 2) ++ le_bytes 2 16 ++
  le_bytes 4 0x61746164 ++ le_bytes 4 (Z.of_nat length - 44).

Definition wav_frame (channels : list (list Q)) (offset : nat) : list Z :=
  flat_map (fun channel => le_bytes 2 (channel_sample channel offset)) channels.

Definition wav_data (channels : list (list Q)) (first count : nat) : list Z :=
  flat_map (wav_frame channels) (seq first count).

(** An unsigned little-endian field of [width] bytes read at an
    offset. *)
Fixpoint le_value (bytes : list Z) : Z :=
  match bytes with
  | [] => 0
  | b :: rest => b + 256 * le_value rest
  end%Z.

Definition field (offset width : nat) (file : list Z) : Z :=
  le_value (firstn width (skipn offset file)).

End Wave.

(* ================================================================= *)
(** ** The text-to-speech component *)

Module Tts.
Import Js Codec Wave.

(** [TtsVoice] of types.ts. *)
Inductive TtsVoice : Type := Kore | Puck | Charon | Fenrir | Zephyr.

(** The [useState] values of the component, the requests sent to the
    service and the messages given to [console.error].  The object URL
    in [audioUrl] stands for the bytes of the blob it was made from. *)
Record State : Type := mkState {
  text : jsstring;
  voice : TtsVoice;
  loading : bool;
  error : option jsstring;
  audioUrl : option (list Z);
  requests : list (jsstring * TtsVoice);
  console_error : list jsstring
}.

(** The component as first rendered. *)
Definition initial : State :=
  {| text := js "Hello, this is a demonstration of the Gemini text-to-speech capabilities.";
     voice := Kore;
     loading := false;
     error := None;
     audioUrl := None;
     requests := [];
     console_error := [] |}.

(** What the SDK and the browser answer during one [handleGenerate]:
    the constructor of the client, the [generateContent] request with
    the audio payload found in its response ([None] for [undefined]),
    and the decoding of the payload ([decode], the audio context and
    [decodeAudioData] together). *)
Record Service : Type := mkService {
  new_GoogleGenAI : Live.Outcome unit;
  generateContent : Live.Outcome (option jsstring);
  decodeAudio : Live.Outcome PlanarBuffer
}.

Definition set_error (v : option jsstring) (s : State) : State :=
  {| text := text s; voice := voice s; loading := loading s; error := v;
     audioUrl := audioUrl s; requests := requests s;
     console_error := console_error s |}.

Definition set_loading (v : bool) (s : State) : State :=
  {| text := text s; voice := voice s; loading := v; error := error s;
     audioUrl := audioUrl s; requests := requests s;
     console_error := console_error s |}.

Definition set_audioUrl (v : option (list Z)) (s : State) : State :=
  {| text := text s; voice := voice s; loading := loading s; error := error s;
     audioUrl := v; requests := requests s;
     console_error := console_error s |}.

Definition send_request (s : State) : State :=
  {| text := text s; voice := voice s; loading := loading s; error := error s;
     audioUrl := audioUrl s;
     requests := requests s ++
       [ (js "Say this with a neutral tone: " ++ text s, voice s) ];
     console_error := console_error s |}.

Definition log_error (message : jsstring) (s : State) : State :=
  {| text := text s; voice := voice s; loading := loading s; error := error s;
     audioUrl := audioUrl s; requests := requests s;
     console_error := console_error s ++ [message] |}.

(** The body of the [try], lines 26-54: the state it leaves, and the
    exception if one was thrown. *)
Definition attempt (service : Service) (s : State)
  : Live.Outcome unit * State :=
  match new_GoogleGenAI service with
  | Live.Throw e => (Live.Throw e, s)
  | Live.Ok _ =>
    let s := send_request s in
    match generateContent service with
    | Live.Throw e => (Live.Throw e, s)
    | Live.Ok base64Audio =>
      match base64Audio with
      | Some (_ :: _) =>
        match decodeAudio service with
        | Live.Throw e => (Live.Throw e, s)
        | Live.Ok audioBuffer =>
          match bufferToWave audioBuffer (frames audioBuffer) with
          | Some wavBlob => (Live.Ok tt, set_audioUrl (Some wavBlob) s)
          | None => (Live.Throw (js "RangeError"), s)
          end
        end
      | _ =>
        (Live.Ok tt,
         set_error
           (Some (js "Audio generation failed. No audio data was returned."))
           s)
      end
    end
  end.

(** [handleGenerate], lines 16-61. *)
Definition handleGenerate (service : Service) (s : State) : State :=
  if negb (truthy (text s))
  then set_error (Some (js "Please enter some text.")) s
  else
    let s := set_audioUrl None (set_error None (set_loading true s)) in
    let s :=
      match attempt service s with
      | (Live.Ok _, s') => s'
      | (Live.Throw message, s') =>
          log_error message
            (set_error (Some (js "An error occurred: " ++ message)) s')
      end in
    set_loading false s.

End Tts.

(* ================================================================= *)
(** ** Facts about the codec *)

Module CodecFacts.
Import Js Codec.

Local Open Scope Z_scope.

Lemma truncate_scale (x : Q) (k : positive) :
  truncate (x * inject_Z (Zpos k)) = Z.quot (Qnum x * Zpos k) (Zpos (Qden x)).
Proof.
  unfold truncate; simpl. now rewrite Pos.mul_1_r.
Qed.

(** The quotient and remainder of a division that truncates. *)
Lemma quot_cases (n d : Z) :
  0 < d ->
  n = d * Z.quot n d + Z.rem n d /\
  ((0 <= n /\ 0 <= Z.rem n d < d /\ 0 <= Z.quot n d) \/
   (n < 0 /\ - d < Z.rem n d <= 0 /\ Z.quot n d <= 0)).
Proof.
  intros Hd. split; [apply Z.quot_rem'|].
  destruct (Z.le_gt_cases 0 n) as [Hn | Hn]; [left | right].
  - repeat split; try apply Z.rem_bound_pos; try apply Z.quot_pos; lia.
  - pose proof (Z.rem_bound_pos_neg n d Hd ltac:(lia)).
    pose proof (Z.quot_le_mono n 0 d Hd ltac:(lia)) as Hq.
    rewrite Z.quot_0_l in Hq by lia. lia.
Qed.

(** Truncation moves toward zero by less than one. *)
Lemma truncate_toward_zero (q : Q) :
  (Qabs (inject_Z (truncate q)) <= Qabs q)%Q /\
  (Qabs (q - inject_Z (truncate q)) < 1)%Q.
Proof.
  destruct q as [n d]. unfold truncate; simpl Qnum; simpl Qden.
  destruct (quot_cases n (Zpos d) ltac:(lia)) as [E C].
  set (k := Z.quot n (Zpos d)) in *. set (r := Z.rem n (Zpos d)) in *.
  split.
  - unfold Qabs, inject_Z, Qle; simpl.
    destruct C as [(Hn & Hr & Hk) | (Hn & Hr & Hk)].
    + rewrite !Z.abs_eq by lia. nia.
    + rewrite !Z.abs_neq by lia. nia.
  - apply Qabs_Qlt_condition.
    unfold Qlt, Qminus, Qplus, Qopp, inject_Z; simpl.
    destruct C as [(Hn & Hr & Hk) | (Hn & Hr & Hk)]; split; nia.
Qed.

(** A sample in [-1,1) scales into the 16-bit range. *)
Lemma truncate_scaled_range (x : Q) :
  (-1 <= x)%Q -> (x < 1)%Q ->
  -32768 <= truncate (x * 32768) <= 32767.
Proof.
  intros Hlo Hhi. change 32768%Q with (inject_Z (Zpos 32768)).
  rewrite truncate_scale. destruct x as [n d]; simpl.
  unfold Qle, Qlt in *; simpl in *.
  destruct (quot_cases (n * 32768) (Zpos d) ltac:(lia)) as [E C].
  set (k := Z.quot (n * 32768) (Zpos d)) in *.
  set (r := Z.rem (n * 32768) (Zpos d)) in *.
  destruct C as [(Hn & Hr & Hk) | (Hn & Hr & Hk)]; nia.
Qed.

(** [ToInt16] always lands in the 16-bit range, and is the identity
    on the truncations that already lie there. *)
Lemma ToInt16_range (q : Q) : -32768 <= ToInt16 q <= 32767.
Proof.
  unfold ToInt16.
  pose proof (Z.mod_pos_bound (truncate q) 65536 ltac:(lia)).
  destruct (Z.geb_spec (truncate q mod 65536) 32768); lia.
Qed.

Lemma ToInt16_exact (q : Q) :
  -32768 <= truncate q <= 32767 -> ToInt16 q = truncate q.
Proof.
  intros H. unfold ToInt16.
  destruct (Z.geb_spec (truncate q mod 65536) 32768) as [G | G];
    revert G; Z.div_mod_to_equations; lia.
Qed.

Lemma lor_land_shift (u : Z) :
  Z.lor (Z.land u 255) (Z.shiftl (Z.shiftr u 8) 8) = u.
Proof.
  apply Z.bits_inj'; intros n Hn.
  rewrite Z.lor_spec, Z.land_spec, Z.shiftl_spec by lia.
  change 255 with (Z.ones 8).
  destruct (Z.ltb_spec n 8).
  - rewrite Z.ones_spec_low by lia.
    rewrite (Z.testbit_neg_r _ (n - 8)) by lia.
    now rewrite andb_true_r, orb_false_r.
  - rewrite Z.ones_spec_high by lia.
    rewrite Z.shiftr_spec by lia.
    replace (n - 8 + 8) with n by lia.
    now rewrite andb_false_r.
Qed.

(** Reading back the two stored bytes gives the stored integer. *)
Lemma int16_of_bytes_int16_bytes (v : Z) :
  -32768 <= v <= 32767 ->
  match int16_bytes v with
  | [lo; hi] => int16_of_bytes lo hi = v
  | _ => False
  end.
Proof.
  intros H. unfold int16_bytes, int16_of_bytes.
  rewrite lor_land_shift.
  destruct (Z.geb_spec (v mod 65536) 32768) as [G | G];
    revert G; Z.div_mod_to_equations; lia.
Qed.

(** The stored bytes are the low and the high byte of the two's
    complement representation, low byte first. *)
Lemma int16_bytes_little_endian (v : Z) :
  int16_bytes v = [ v mod 256; (v / 256) mod 256 ].
Proof.
  unfold int16_bytes. change 255 with (Z.ones 8).
  rewrite Z.land_ones, Z.shiftr_div_pow2 by lia.
  change (2 ^ 8) with 256. f_equal; [|f_equal].
  - Z.div_mod_to_equations; lia.
  - Z.div_mod_to_equations; lia.
Qed.

Lemma int16_bytes_are_bytes (v : Z) :
  Forall (fun b => 0 <= b < 256) (int16_bytes v).
Proof.
  rewrite int16_bytes_little_endian.
  repeat constructor; apply Z.mod_pos_bound; lia.
Qed.

Lemma int16_view_pcm_bytes (samples : list Q) :
  int16_view (pcm_bytes samples) = map sample_to_int16 samples.
Proof.
  induction samples as [| x r IH]; [reflexivity|].
  unfold pcm_bytes in *. cbn [flat_map map].
  pose proof (int16_of_bytes_int16_bytes _ (ToInt16_range (x * 32768))) as E.
  unfold sample_to_int16 at 1.
  destruct (int16_bytes (ToInt16 (x * 32768))) as [| lo [| hi [| ? ?]]];
    try contradiction.
  cbn [app int16_view]. now rewrite IH, E.
Qed.

Lemma pcm_bytes_length (samples : list Q) :
  List.length (pcm_bytes samples) = (2 * List.length samples)%nat.
Proof.
  induction samples as [| x r IH]; [reflexivity|].
  unfold pcm_bytes in *. cbn [flat_map]. rewrite length_app, IH.
  cbn. lia.
Qed.

Lemma pcm_bytes_are_bytes (samples : list Q) :
  Forall (fun b => 0 <= b < 256) (pcm_bytes samples).
Proof.
  induction samples as [| x r IH]; [constructor|].
  unfold pcm_bytes in *. cbn [flat_map].
  apply Forall_app; split; [apply int16_bytes_are_bytes | exact IH].
Qed.

Lemma decodeAudioData_pcm_bytes (x : Q) (r : list Q) (rate : positive) :
  decodeAudioData (pcm_bytes (x :: r)) rate =
  Some {| channelData :=
            map (fun y => (inject_Z (sample_to_int16 y) / 32768)%Q) (x :: r);
          sampleRate := rate |}.
Proof.
  unfold decodeAudioData.
  rewrite pcm_bytes_length, int16_view_pcm_bytes, map_map.
  rewrite Nat.even_mul. cbn [Nat.even orb].
  unfold pcm_bytes; cbn [flat_map]. reflexivity.
Qed.

(** One sample through the encoder and back: for a sample in [-1,1)
    the error is below one quantisation step. *)
Lemma sample_roundtrip_error (x : Q) :
  (-1 <= x)%Q -> (x < 1)%Q ->
  (Qabs (inject_Z (sample_to_int16 x) / 32768 - x) < 1 # 32768)%Q.
Proof.
  intros Hlo Hhi. unfold sample_to_int16.
  rewrite ToInt16_exact by now apply truncate_scaled_range.
  destruct (truncate_toward_zero (x * 32768)) as [_ H].
  apply Qabs_Qlt_condition in H. apply Qabs_Qlt_condition.
  unfold Qdiv. change (/ 32768)%Q with (1 # 32768)%Q.
  set (v := inject_Z (truncate (x * 32768))) in *.
  split; lra.
Qed.

(** The round trip on whole frames, full scale excluded. *)
Lemma roundtrip_within_step
      (encode : list Z -> jsstring) (decode : jsstring -> list Z)
      (rate : positive) (samples : list Q) :
  (forall b, Forall (fun x => 0 <= x < 256) b -> decode (encode b) = b) ->
  samples <> [] ->
  Forall (fun x => (-1 <= x)%Q /\ (x < 1)%Q) samples ->
  exists out,
    decodeInbound decode (createBlob encode samples) rate =
      Some {| channelData := out; sampleRate := rate |} /\
    Forall2 (fun x y => (Qabs (y - x) < 1 # 32768)%Q) samples out.
Proof.
  intros Hcodec Hne Hrange.
  destruct samples as [| x r]; [congruence|].
  unfold decodeInbound, createBlob; cbn [data].
  rewrite Hcodec by apply pcm_bytes_are_bytes.
  rewrite decodeAudioData_pcm_bytes.
  eexists; split; [reflexivity|].
  clear Hne. generalize dependent (x :: r). clear x r.
  induction 1 as [| y l [Hlo Hhi] _ IH]; cbn [map]; constructor.
  - now apply sample_roundtrip_error.
  - exact IH.
Qed.

(** The sibling encoder [bufferToWave] saturates: whatever the sample,
    the stored integer is in the 16-bit range, and full scale is stored
    as 32767. *)
Lemma wave_sample_range (x : Q) : -32768 <= wave_sample x <= 32767.
Proof.
  unfold wave_sample. set (s := Qmax (-1) (Qmin 1 x)).
  assert (Hs : (-1 <= s)%Q /\ (s <= 1)%Q).
  { subst s. split; [apply Q.le_max_l|].
    apply Q.max_lub; [discriminate | apply Q.le_min_l]. }
  clearbody s. destruct Hs as [Hlo Hhi].
  destruct (Qlt_le_dec ((1 # 2) + s) 0) as [Hneg | Hpos].
  - apply truncate_scaled_range; lra.
  - change 32767%Q with (inject_Z (Zpos 32767)). rewrite truncate_scale.
    destruct s as [n d]. unfold Qle, Qplus in *; simpl in *.
    destruct (quot_cases (n * 32767) (Zpos d) ltac:(lia)) as [E C].
    set (k := Z.quot (n * 32767) (Zpos d)) in *.
    set (r := Z.rem (n * 32767) (Zpos d)) in *.
    destruct C as [(Hn & Hr & Hk) | (Hn & Hr & Hk)]; nia.
Qed.

Lemma wave_sample_full_scale : wave_sample 1 = 32767.
Proof. reflexivity. Qed.

(** C4 (counterexample).  The sample 1.75/32768 lies in [-1,1];
    rounding to nearest stores 2 for it, [createBlob] stores 1. *)
Lemma createBlob_does_not_round :
  let x := (7 # 131072)%Q in
  (-1 <= x)%Q /\ (x <= 1)%Q /\
  spec_sample_to_int16 x = 2 /\
  sample_to_int16 x = 1 /\
  pcm_bytes [x] = [1; 0].
Proof.
  cbv zeta. repeat split; try reflexivity; unfold Qle; simpl; lia.
Qed.

(** C4 (amended).  For samples in [-1,1) the frame of [createBlob]
    carries, for each sample, the integer obtained by scaling with
    32768 and truncating toward zero; that integer lies in the signed
    16-bit range, so nothing is saturated or wrapped; its two bytes
    are stored low byte first; the frame is tagged
    audio/pcm;rate=16000. *)
Theorem createBlob_truncating_encoder
        (encode : list Z -> jsstring) (samples : list Q) :
  Forall (fun x => (-1 <= x)%Q /\ (x < 1)%Q) samples ->
  let ints := map (fun x => truncate (x * 32768)) samples in
  data (createBlob encode samples) =
    encode (flat_map (fun v => [ v mod 256; (v / 256) mod 256 ]) ints) /\
  Forall (fun v => -32768 <= v <= 32767) ints /\
  Forall (fun x =>
            (Qabs (inject_Z (truncate (x * 32768))) <= Qabs (x * 32768))%Q /\
            (Qabs (x * 32768 - inject_Z (truncate (x * 32768))) < 1)%Q)
         samples /\
  mimeType (createBlob encode samples) = js "audio/pcm;rate=16000".
Proof.
  intros Hrange ints. subst ints. repeat split.
  - unfold createBlob; cbn [data]. f_equal.
    induction Hrange as [| x l [Hlo Hhi] _ IH]; [reflexivity|].
    unfold pcm_bytes in *. cbn [flat_map map]. rewrite IH.
    rewrite int16_bytes_little_endian. unfold sample_to_int16.
    now rewrite ToInt16_exact by now apply truncate_scaled_range.
  - induction Hrange as [| x l [Hlo Hhi] _ IH]; cbn [map]; constructor;
      [now apply truncate_scaled_range | exact IH].
  - apply Forall_forall. intros x _. apply truncate_toward_zero.
Qed.

(** *** Base64 loses nothing *)

Lemma base64_sextets_checked :
  forallb (fun n =>
             let v := Z.of_nat n in
             Z.eqb (base64_value (base64_char v)) v &&
             negb (N.eqb (base64_char v) base64_pad))
          (seq 0 64) = true.
Proof. vm_compute. reflexivity. Qed.

Lemma base64_sextet (v : Z) :
  0 <= v < 64 ->
  base64_value (base64_char v) = v /\
  N.eqb (base64_char v) base64_pad = false.
Proof.
  intros Hv.
  pose proof (proj1 (forallb_forall _ _) base64_sextets_checked (Z.to_nat v)) as H.
  cbv beta zeta in H. rewrite Z2Nat.id in H by lia.
  assert (Hin : In (Z.to_nat v) (seq 0 64)) by (apply in_seq; lia).
  apply H in Hin. apply andb_prop in Hin. destruct Hin as [H1 H2].
  split; [now apply Z.eqb_eq | now apply negb_true_iff].
Qed.

Lemma list_ind3 {A : Type} (P : list A -> Prop) :
  P [] ->
  (forall a, P [a]) ->
  (forall a b, P [a; b]) ->
  (forall a b c r, P r -> P (a :: b :: c :: r)) ->
  forall l, P l.
Proof.
  intros H0 H1 H2 H3 l.
  assert (H : P l /\ (forall a, P (a :: l)) /\ (forall a b, P (a :: b :: l))).
  { induction l as [| x r (IH0 & IH1 & IH2)]; repeat split; auto. }
  exact (proj1 H).
Qed.

Ltac sextet :=
  match goal with
  | |- context [base64_value (base64_char ?v)] =>
      let H := fresh in
      assert (H : 0 <= v < 64) by (Z.div_mod_to_equations; lia);
      rewrite (proj1 (base64_sextet v H)); clear H
  | |- context [N.eqb (base64_char ?v) base64_pad] =>
      let H := fresh in
      assert (H : 0 <= v < 64) by (Z.div_mod_to_equations; lia);
      rewrite (proj2 (base64_sextet v H)); clear H
  end.

Lemma base64_decode_encode (bytes : list Z) :
  Forall (fun x => 0 <= x < 256) bytes ->
  base64_decode (base64_encode bytes) = bytes.
Proof.
  induction bytes as [| a | a b | a b c rest IH] using list_ind3; intros Hb.
  - reflexivity.
  - inversion_clear Hb as [| ? ? Ha _].
    cbn [base64_encode base64_decode]. rewrite N.eqb_refl.
    repeat sextet. f_equal. Z.div_mod_to_equations; lia.
  - inversion_clear Hb as [| ? ? Ha Hb']. inversion_clear Hb' as [| ? ? Hb _].
    cbn [base64_encode base64_decode]. rewrite N.eqb_refl.
    repeat sextet. repeat f_equal; Z.div_mod_to_equations; lia.
  - inversion_clear Hb as [| ? ? Ha Hb']. inversion_clear Hb' as [| ? ? Hb Hc'].
    inversion_clear Hc' as [| ? ? Hc Hrest].
    cbn [base64_encode base64_decode app]. repeat sextet.
    rewrite (IH Hrest). cbn [app].
    repeat f_equal; Z.div_mod_to_equations; lia.
Qed.

Lemma createBlob_truncating_encoder_witness :
  let samples := [ (1 # 2)%Q; (-1)%Q; (7 # 131072)%Q ] in
  data (createBlob base64_encode samples) = js "AEAAgAEA" /\
  mimeType (createBlob base64_encode samples) = js "audio/pcm;rate=16000".
Proof.
  cbv zeta.
  destruct (createBlob_truncating_encoder base64_encode
              [ (1 # 2)%Q; (-1)%Q; (7 # 131072)%Q ]) as (H1 & _ & _ & H2).
  - repeat constructor; unfold Qle, Qlt; simpl; lia.
  - split; [exact H1 | exact H2].
Defined.

(** C5 (the failing input).  One full-scale sample 1.0 goes through
    [createBlob] and comes back from the decoder as -1: the error is
    2, not one quantisation step. *)
Theorem roundtrip_full_scale_flips_sign
        (encode : list Z -> jsstring) (decode : jsstring -> list Z)
        (rate : positive) :
  (forall b, Forall (fun x => 0 <= x < 256) b -> decode (encode b) = b) ->
  exists y,
    decodeInbound decode (createBlob encode [1%Q]) rate =
      Some {| channelData := [y]; sampleRate := rate |} /\
    (y == -1)%Q /\
    ~ (Qabs (y - 1) <= 1 # 32768)%Q.
Proof.
  intros Hcodec.
  unfold decodeInbound, createBlob; cbn [data].
  rewrite Hcodec by apply pcm_bytes_are_bytes.
  rewrite decodeAudioData_pcm_bytes.
  eexists; split; [reflexivity|]. split.
  - reflexivity.
  - vm_compute. intros H; apply H; reflexivity.
Qed.

Lemma roundtrip_full_scale_flips_sign_witness :
  exists y,
    decodeInbound base64_decode (createBlob base64_encode [1%Q]) 24000 =
      Some {| channelData := [y]; sampleRate := 24000 |} /\
    (y == -1)%Q /\
    ~ (Qabs (y - 1) <= 1 # 32768)%Q.
Proof.
  apply (roundtrip_full_scale_flips_sign base64_encode base64_decode).
  exact base64_decode_encode.
Defined.

End CodecFacts.

(* ================================================================= *)
(** ** Facts about the session component *)

Module LiveFacts.
Import Js Codec Live.

Lemma set_trace_same (s : State) : set_trace (trace s) s = s.
Proof. now destruct s. Qed.

Lemma forEach_call {A : Type} (f : A -> Effect) (l : list A) (s : State) :
  forEach l (fun a => call (f a)) s =
  (Ok tt, set_trace (trace s ++ map f l) s).
Proof.
  revert s; induction l as [| a r IH]; intros s; cbn [forEach map].
  - unfold ret. now rewrite app_nil_r, set_trace_same.
  - unfold bind, call, modify. rewrite IH. f_equal.
    destruct s; cbn. now rewrite <- app_assoc.
Qed.

(** *** The playback scheduler *)

Lemma flush_run (s : State) :
  flush s =
  (Ok tt,
   set_nextStartTimeRef 0
     (set_audioSourcesRef []
        (set_trace (trace s ++ map SourceStop (audioSourcesRef s)) s))).
Proof.
  unfold flush, bind, read. rewrite forEach_call. reflexivity.
Qed.

(** C2.  From every state, [flush] stops every source of the set (the
    calls it adds are exactly one [stop] per source, in the set's
    order), leaves the set empty and the cursor at 0, and does not
    throw. *)
Theorem flush_stops_clears_resets (s : State) :
  let s' := exec flush s in
  trace s' = trace s ++ map SourceStop (audioSourcesRef s) /\
  (forall source, In source (audioSourcesRef s) ->
                  In (SourceStop source) (trace s')) /\
  audioSourcesRef s' = [] /\
  nextStartTimeRef s' = 0 /\
  raises flush s = false.
Proof.
  unfold exec, raises, outcome. rewrite flush_run. cbn.
  repeat split; try reflexivity.
  intros source Hin. apply in_or_app. right. now apply in_map.
Qed.

(** *** Teardown *)

Lemma bind_forEach_call {A B : Type} (f : A -> Effect) (l : list A)
      (k : unit -> Exec B) (s : State) :
  bind (forEach l (fun a => call (f a))) k s =
  k tt (set_trace (trace s ++ map f l) s).
Proof. unfold bind. now rewrite forEach_call. Qed.

Lemma set_trace_nil (s : State) : set_trace (trace s ++ []) s = s.
Proof. now rewrite app_nil_r, set_trace_same. Qed.

Lemma close_context_closed (ctx : AudioContext) :
  is_closed ctx = true -> close_context ctx = ctx.
Proof.
  destruct ctx as [r []]; unfold close_context, is_closed; cbn;
    intros E; congruence.
Qed.

(** Each guarded block of [stopSession], followed by any
    continuation, is one update of the state: the block's calls are
    appended and its ref is cleared (a context is marked closed). *)
Section StopSessionBlocks.
Variable k : Exec unit.
Variable s : State.

Lemma stop_block_session :
  (sessionPromise <- read sessionPromiseRef ;;
   match sessionPromise with
   | Some _ => call SessionClose ;; modify (set_sessionPromiseRef None)
   | None => ret tt
   end ;; k) s =
  k (set_sessionPromiseRef None
       (set_trace
          (trace s ++ match sessionPromiseRef s with
                      | Some _ => [SessionClose]
                      | None => []
                      end) s)).
Proof.
  unfold bind, read. destruct (sessionPromiseRef s) eqn:E; [reflexivity|].
  cbn [ret]. rewrite set_trace_nil. f_equal.
  destruct s; cbn in *; now subst.
Qed.

Lemma stop_block_stream :
  (stream <- read streamRef ;;
   match stream with
   | Some st =>
       forEach (getTracks st) (fun track => call (TrackStop track)) ;;
       modify (set_streamRef None)
   | None => ret tt
   end ;; k) s =
  k (set_streamRef None
       (set_trace
          (trace s ++ match streamRef s with
                      | Some st => map TrackStop (getTracks st)
                      | None => []
                      end) s)).
Proof.
  unfold bind at 1, read. destruct (streamRef s) eqn:E.
  - unfold bind at 1. now rewrite bind_forEach_call.
  - unfold bind, ret. rewrite set_trace_nil. f_equal.
    destruct s; cbn in *; now subst.
Qed.

Lemma stop_block_processor :
  (processor <- read scriptProcessorRef ;;
   match processor with
   | Some _ =>
       call ProcessorDisconnect ;; modify (set_scriptProcessorRef None)
   | None => ret tt
   end ;; k) s =
  k (set_scriptProcessorRef None
       (set_trace
          (trace s ++ match scriptProcessorRef s with
                      | Some _ => [ProcessorDisconnect]
                      | None => []
                      end) s)).
Proof.
  unfold bind, read. destruct (scriptProcessorRef s) eqn:E; [reflexivity|].
  cbn [ret]. rewrite set_trace_nil. f_equal.
  destruct s; cbn in *; now subst.
Qed.

Lemma stop_block_source :
  (streamSource <- read mediaStreamSourceRef ;;
   match streamSource with
   | Some _ =>
       call StreamSourceDisconnect ;; modify (set_mediaStreamSourceRef None)
   | None => ret tt
   end ;; k) s =
  k (set_mediaStreamSourceRef None
       (set_trace
          (trace s ++ match mediaStreamSourceRef s with
                      | Some _ => [StreamSourceDisconnect]
                      | None => []
                      end) s)).
Proof.
  unfold bind, read. destruct (mediaStreamSourceRef s) eqn:E; [reflexivity|].
  cbn [ret]. rewrite set_trace_nil. f_equal.
  destruct s; cbn in *; now subst.
Qed.

Lemma stop_block_input :
  (inputContext <- read inputAudioContextRef ;;
   match inputContext with
   | Some ctx =>
       if is_closed ctx then ret tt
       else ctx' <- AudioContext_close capture ctx ;;
            modify (set_inputAudioContextRef (Some ctx'))
   | None => ret tt
   end ;; k) s =
  k (set_inputAudioContextRef
       (option_map close_context (inputAudioContextRef s))
       (set_trace
          (trace s ++ match inputAudioContextRef s with
                      | Some ctx =>
                          if is_closed ctx then []
                          else [ContextClose capture]
                      | None => []
                      end) s)).
Proof.
  unfold bind, read, AudioContext_close.
  destruct (inputAudioContextRef s) as [ctx|] eqn:E.
  - destruct (is_closed ctx) eqn:C; [|reflexivity].
    cbn [ret option_map]. rewrite set_trace_nil, close_context_closed by easy.
    f_equal. destruct s; cbn in *; now subst.
  - cbn [ret option_map]. rewrite set_trace_nil. f_equal.
    destruct s; cbn in *; now subst.
Qed.

Lemma stop_block_output :
  (outputContext <- read outputAudioContextRef ;;
   match outputContext with
   | Some ctx =>
       if is_closed ctx then ret tt
       else ctx' <- AudioContext_close playback ctx ;;
            modify (set_outputAudioContextRef (Some ctx'))
   | None => ret tt
   end ;; k) s =
  k (set_outputAudioContextRef
       (option_map close_context (outputAudioContextRef s))
       (set_trace
          (trace s ++ match outputAudioContextRef s with
                      | Some ctx =>
                          if is_closed ctx then []
                          else [ContextClose playback]
                      | None => []
                      end) s)).
Proof.
  unfold bind, read, AudioContext_close.
  destruct (outputAudioContextRef s) as [ctx|] eqn:E.
  - destruct (is_closed ctx) eqn:C; [|reflexivity].
    cbn [ret option_map]. rewrite set_trace_nil, close_context_closed by easy.
    f_equal. destruct s; cbn in *; now subst.
  - cbn [ret option_map]. rewrite set_trace_nil. f_equal.
    destruct s; cbn in *; now subst.
Qed.
End StopSessionBlocks.

Lemma stop_block_sources (s : State) :
  (sources <- read audioSourcesRef ;;
   forEach sources (fun source => call (SourceStop source)) ;;
   modify (set_audioSourcesRef []) ;;
   modify (set_nextStartTimeRef 0) ;;
   modify (set_isSessionActive false) ;;
   modify (set_isConnecting false)) s =
  (Ok tt,
   set_isConnecting false
     (set_isSessionActive false
        (set_nextStartTimeRef 0
           (set_audioSourcesRef []
              (set_trace (trace s ++ map SourceStop (audioSourcesRef s)) s))))).
Proof. unfold bind at 1, read. now rewrite bind_forEach_call. Qed.

Lemma stopSession_run (s : State) : stopSession s = (Ok tt, stopped s).
Proof.
  unfold stopSession.
  rewrite stop_block_session, stop_block_stream, stop_block_processor,
          stop_block_source, stop_block_input, stop_block_output,
          stop_block_sources.
  f_equal.
  destruct s as [c a e h sp ic oc pr ms st ti to nst srcs tr nid].
  unfold stopped, release_calls; cbn.
  now rewrite <- !app_assoc.
Qed.

(** A stopped state owes no release call, and stopping it again
    changes nothing. *)
Lemma release_calls_stopped (s : State) : release_calls (stopped s) = [].
Proof.
  unfold release_calls, stopped; cbn.
  now destruct (inputAudioContextRef s), (outputAudioContextRef s).
Qed.






(** *** The transcript aggregator *)

Lemma truthy_trimStart (l : jsstring) :
  truthy (trimStart l) = negb (blank l).
Proof.
  unfold blank. induction l as [| c r IH]; [reflexivity|].
  cbn [trimStart forallb]. now destruct (is_whitespace c).
Qed.

Lemma truthy_rev (l : jsstring) : truthy (rev l) = truthy l.
Proof.
  destruct l as [| c r]; [reflexivity|]. cbn [rev truthy].
  destruct (rev r); reflexivity.
Qed.

Lemma blank_rev (l : jsstring) : blank (rev l) = blank l.
Proof.
  unfold blank. induction l as [| c r IH]; [reflexivity|].
  cbn [rev forallb]. rewrite forallb_app, IH. cbn [forallb].
  rewrite andb_true_r. apply andb_comm.
Qed.

Lemma blank_trimStart (l : jsstring) : blank (trimStart l) = blank l.
Proof.
  unfold blank. induction l as [| c r IH]; [reflexivity|].
  cbn [trimStart forallb].
  destruct (is_whitespace c) eqn:E; cbn [forallb andb];
    [exact IH | now rewrite E].
Qed.

(** [s.trim()] is truthy exactly when [s] has a character that is not
    whitespace. *)
Lemma truthy_trim (l : jsstring) : truthy (trim l) = negb (blank l).
Proof.
  unfold trim, trimEnd.
  now rewrite truthy_rev, truthy_trimStart, blank_rev, blank_trimStart.
Qed.

Lemma finalize_turn_run (s : State) :
  finalize_turn s =
  (Ok tt,
   with_buffers [] []
     (set_transcriptionHistory
        ((if truthy (trim (currentInputTranscriptionRef s))
          then transcriptionHistory s ++
               [ {| speaker := user; text := currentInputTranscriptionRef s |} ]
          else transcriptionHistory s) ++
         (if truthy (trim (currentOutputTranscriptionRef s))
          then [ {| speaker := model;
                    text := currentOutputTranscriptionRef s |} ]
          else [])) s)).
Proof.
  unfold finalize_turn, bind, read, modify, with_buffers. cbn.
  do 3 f_equal.
  destruct (truthy (trim (currentOutputTranscriptionRef s)));
    [reflexivity | now rewrite app_nil_r].
Qed.

Lemma turn_complete_event_run (currentTime : Q) (s : State) :
  onmessage_begin currentTime turn_complete_event s =
  (Ok Finished, exec finalize_turn s).
Proof.
  unfold exec. rewrite finalize_turn_run.
  unfold onmessage_begin, onmessage_rest, turn_complete_event.
  unfold bind at 1, read.
  destruct (outputAudioContextRef s); cbn -[finalize_turn];
    unfold bind, ret; cbn -[finalize_turn]; now rewrite finalize_turn_run.
Qed.

(** C6 (counterexample).  An input buffer holding one space is not
    empty, yet the turn-complete event appends no entry for it. *)
Lemma whitespace_buffer_is_not_appended :
  let s := with_buffers (js " ") [] initial in
  let s' := exec (onmessage_begin 0 turn_complete_event) s in
  truthy (currentInputTranscriptionRef s) = true /\
  spec_turn_entries (currentInputTranscriptionRef s)
                    (currentOutputTranscriptionRef s) =
    [ {| speaker := user; text := js " " |} ] /\
  transcriptionHistory s' = [] /\
  transcriptionHistory s' <>
    transcriptionHistory s ++
    spec_turn_entries (currentInputTranscriptionRef s)
                      (currentOutputTranscriptionRef s).
Proof.
  cbv zeta. repeat split; try reflexivity. vm_compute. discriminate.
Qed.

(** C6 (amended).  A turn-complete event appends one entry for each
    accumulation buffer whose trimmed text is not empty, the user's
    before the model's, and leaves both buffers empty; with the input
    buffer "hello" and an empty output buffer it appends exactly the
    entry of the user with the text "hello". *)
Theorem turn_complete_appends_trimmed_nonempty (currentTime : Q) (s : State) :
  let fullInput := currentInputTranscriptionRef s in
  let fullOutput := currentOutputTranscriptionRef s in
  let s' := exec (onmessage_begin currentTime turn_complete_event) s in
  transcriptionHistory s' =
    transcriptionHistory s ++
    (if truthy (trim fullInput)
     then [ {| speaker := user; text := fullInput |} ] else []) ++
    (if truthy (trim fullOutput)
     then [ {| speaker := model; text := fullOutput |} ] else []) /\
  currentInputTranscriptionRef s' = [] /\
  currentOutputTranscriptionRef s' = [] /\
  raises (onmessage_begin currentTime turn_complete_event) s = false /\
  transcriptionHistory
    (exec (onmessage_begin currentTime turn_complete_event)
          (with_buffers (js "hello") [] s)) =
    transcriptionHistory s ++ [ {| speaker := user; text := js "hello" |} ].
Proof.
  unfold exec, raises, outcome. rewrite !turn_complete_event_run.
  unfold exec. rewrite !finalize_turn_run. cbn [fst snd].
  repeat split; try (now destruct s).
  - destruct s; cbn -[trim truthy].
    destruct (truthy (trim currentInputTranscriptionRef0)),
             (truthy (trim currentOutputTranscriptionRef0)); cbn;
      rewrite <- ?app_assoc, ?app_nil_r; reflexivity.
  - destruct s; cbn. now rewrite app_nil_r.
Qed.

(** C10.  On a completed turn a buffer made of whitespace only yields
    no entry, any other buffer yields an entry, and the entry carries
    the accumulated text as it is, whitespace included. *)
Theorem finalize_turn_judges_trimmed_text (s : State) :
  let fullInput := currentInputTranscriptionRef s in
  let fullOutput := currentOutputTranscriptionRef s in
  transcriptionHistory (exec finalize_turn s) =
    transcriptionHistory s ++
    (if blank fullInput
     then [] else [ {| speaker := user; text := fullInput |} ]) ++
    (if blank fullOutput
     then [] else [ {| speaker := model; text := fullOutput |} ]) /\
  transcriptionHistory
    (exec finalize_turn (with_buffers (js "  ") (js " ok ") s)) =
    transcriptionHistory s ++ [ {| speaker := model; text := js " ok " |} ].
Proof.
  unfold exec. rewrite !finalize_turn_run. cbn [snd]. split.
  - rewrite !truthy_trim. destruct s; cbn -[blank].
    destruct (blank currentInputTranscriptionRef0),
             (blank currentOutputTranscriptionRef0); cbn;
      rewrite <- ?app_assoc, ?app_nil_r; reflexivity.
  - now destruct s.
Qed.

(** *** Scheduling *)

Lemma duration_nonneg (b : AudioBuffer) : 0 <= duration b.
Proof. unfold duration, Qle; simpl. lia. Qed.

Lemma segments_app (l1 l2 : list Effect) :
  segments (l1 ++ l2) = segments l1 ++ segments l2.
Proof. apply flat_map_app. Qed.

(** One [schedule()] on a state that has a playback context. *)
Lemma schedule_run (request : Q * AudioBuffer) (s : State) :
  outputAudioContextRef s <> None ->
  let start := Qmax (nextStartTimeRef s) (fst request) in
  let source := {| node_id := next_node_id s; buffer := snd request |} in
  let s' := exec (schedule request) s in
  schedule request s = (Ok tt, s') /\
  trace s' = trace s ++ [SourceStart source start] /\
  nextStartTimeRef s' = start + duration (snd request) /\
  audioSourcesRef s' = Set_add source (audioSourcesRef s) /\
  outputAudioContextRef s' = outputAudioContextRef s.
Proof.
  intros Hctx. destruct s, request as [now audioBuffer].
  cbn in Hctx. destruct outputAudioContextRef0; [|congruence].
  repeat split.
Qed.

Lemma schedule_monotone (request : Q * AudioBuffer) (s : State) :
  nextStartTimeRef s <= nextStartTimeRef (exec (schedule request) s).
Proof.
  destruct request as [now audioBuffer].
  pose proof (Q.le_max_l (nextStartTimeRef s) now) as Hmax.
  pose proof (duration_nonneg audioBuffer) as Hdur.
  destruct s; cbn in *. destruct outputAudioContextRef0; cbn; [lra | exact Hmax].
Qed.

Lemma spec_timeline_after_cursor (requests : list (Q * AudioBuffer)) :
  forall cursor,
    Forall (fun seg => cursor <= fst seg) (spec_timeline cursor requests).
Proof.
  induction requests as [| [now b] rest IH]; intros cursor; cbn; constructor.
  - cbn. apply Q.le_max_l.
  - eapply Forall_impl; [| apply IH]. cbn. intros seg Hseg.
    pose proof (Q.le_max_l cursor now). pose proof (duration_nonneg b). lra.
Qed.

Lemma spec_timeline_back_to_back (requests : list (Q * AudioBuffer)) :
  forall cursor, back_to_back (spec_timeline cursor requests).
Proof.
  unfold back_to_back.
  induction requests as [| [now b] rest IH]; intros cursor; cbn; constructor.
  - apply spec_timeline_after_cursor.
  - apply IH.
Qed.

(** C1.  A run of [schedule()] calls on a state with a playback
    context, with nothing in between.  No call throws; the segments
    the run starts are those of the spec's timeline (each starts at
    the later of the cursor and the device clock and ends one buffer
    duration later, where the cursor then stands); no two of them
    overlap; and the cursor never moves back, over the run and over
    any single call. *)
Theorem schedule_back_to_back (requests : list (Q * AudioBuffer)) (s : State) :
  outputAudioContextRef s <> None ->
  let s' := exec (forEach requests schedule) s in
  raises (forEach requests schedule) s = false /\
  (exists calls,
      trace s' = trace s ++ calls /\
      segments calls = spec_timeline (nextStartTimeRef s) requests /\
      back_to_back (segments calls)) /\
  nextStartTimeRef s <= nextStartTimeRef s' /\
  (forall request s0,
      nextStartTimeRef s0 <=
      nextStartTimeRef (exec (schedule request) s0)).
Proof.
  intros Hctx s'. subst s'.
  assert (Hrun : raises (forEach requests schedule) s = false /\
                 (exists calls,
                     trace (exec (forEach requests schedule) s) =
                       trace s ++ calls /\
                     segments calls =
                       spec_timeline (nextStartTimeRef s) requests) /\
                 nextStartTimeRef s <=
                   nextStartTimeRef (exec (forEach requests schedule) s)).
  { revert s Hctx.
    induction requests as [| request rest IH]; intros s Hctx.
    - cbn. repeat split; [| apply Qle_refl].
      exists []. now rewrite app_nil_r.
    - destruct (schedule_run request s Hctx) as (Hs & Htr & Hnst & _ & Hout).
      set (s1 := exec (schedule request) s) in *.
      assert (Hctx1 : outputAudioContextRef s1 <> None) by congruence.
      destruct (IH s1 Hctx1) as (Hr & (calls & Hcalls & Hseg) & Hmono).
      unfold raises, outcome, exec in *. cbn [forEach].
      unfold bind. rewrite Hs. repeat split.
      + exact Hr.
      + eexists. split.
        * rewrite Hcalls, Htr, <- app_assoc. reflexivity.
        * rewrite segments_app, Hseg, Hnst.
          destruct request as [now b]. reflexivity.
      + eapply Qle_trans; [apply (schedule_monotone request s) | exact Hmono]. }
  destruct Hrun as (Hr & (calls & Hcalls & Hseg) & Hmono).
  repeat split; try assumption.
  - exists calls. repeat split; try assumption.
    rewrite Hseg. apply spec_timeline_back_to_back.
  - intros. apply schedule_monotone.
Qed.

(** *** Scheduling under interleaving *)

Lemma back_to_back_snoc (l : list (Q * Q)) (seg : Q * Q) :
  back_to_back l ->
  Forall (fun A => snd A <= fst seg) l ->
  back_to_back (l ++ [seg]).
Proof.
  unfold back_to_back. induction 1 as [| A r HA _ IH]; intros Hl; cbn.
  - constructor; constructor.
  - inversion_clear Hl as [| ? ? HAseg Hr]. constructor.
    + apply Forall_app. split; [exact HA | now constructor].
    + now apply IH.
Qed.

Lemma scheduler_step_preserves (s s' : State) :
  scheduler_step s s' ->
  timeline_ok s ->
  timeline_ok s' /\ nextStartTimeRef s <= nextStartTimeRef s'.
Proof.
  intros Hstep [Hb Hend]. destruct Hstep as [t s | b s | src s].
  - assert (E : trace (exec (schedule_prepare t) s) = trace s) by now destruct s.
    assert (N : nextStartTimeRef (exec (schedule_prepare t) s) =
                Qmax (nextStartTimeRef s) t) by now destruct s.
    unfold timeline_ok. rewrite E, N.
    pose proof (Q.le_max_l (nextStartTimeRef s) t) as Hmax.
    repeat split; [exact Hb | | exact Hmax].
    eapply Forall_impl; [| exact Hend]. cbn. intros seg Hseg. lra.
  - destruct (outputAudioContextRef s) eqn:Hctx.
    + assert (E : trace (exec (schedule_commit b) s) =
                  trace s ++ [SourceStart {| node_id := next_node_id s;
                                             buffer := b |}
                                          (nextStartTimeRef s)])
        by (destruct s; cbn in *; now subst).
      assert (N : nextStartTimeRef (exec (schedule_commit b) s) =
                  nextStartTimeRef s + duration b)
        by (destruct s; cbn in *; now subst).
      unfold timeline_ok. rewrite E, N, segments_app. cbn [segments flat_map
        segment_of app buffer].
      pose proof (duration_nonneg b) as Hd.
      repeat split.
      * apply back_to_back_snoc; [exact Hb | exact Hend].
      * apply Forall_app. split.
        -- eapply Forall_impl; [| exact Hend]. cbn. intros seg Hseg. lra.
        -- constructor; [apply Qle_refl | constructor].
      * lra.
    + assert (E : exec (schedule_commit b) s = s)
        by (destruct s; cbn in *; now subst).
      rewrite E. split; [now split | apply Qle_refl].
  - assert (E : trace (exec (source_ended src) s) = trace s) by now destruct s.
    assert (N : nextStartTimeRef (exec (source_ended src) s) =
                nextStartTimeRef s) by now destruct s.
    unfold timeline_ok. rewrite E, N. split; [now split | apply Qle_refl].
Qed.

(** However the two halves of concurrent [onmessage] handlers
    interleave, as long as no interruption or teardown comes in
    between, the segments started stay free of overlap and the cursor
    never moves back. *)
Lemma scheduler_run_preserves (s s' : State) :
  scheduler_run s s' ->
  timeline_ok s ->
  timeline_ok s' /\ nextStartTimeRef s <= nextStartTimeRef s'.
Proof.
  induction 1 as [s | s1 s2 s3 Hstep _ IH]; intros Hok.
  - split; [exact Hok | apply Qle_refl].
  - destruct (scheduler_step_preserves _ _ Hstep Hok) as [Hok2 Hle].
    destruct (IH Hok2) as [Hok3 Hle3].
    split; [exact Hok3 | eapply Qle_trans; eassumption].
Qed.

Lemma timeline_ok_active_session : timeline_ok active_session.
Proof. split; constructor. Qed.

Lemma schedule_back_to_back_witness :
  let requests := [ (1 # 2, silence 3); (0, silence 2) ] in
  outputAudioContextRef active_session <> None /\
  raises (forEach requests schedule) active_session = false /\
  nextStartTimeRef active_session <=
    nextStartTimeRef (exec (forEach requests schedule) active_session).
Proof.
  cbv zeta.
  assert (H : outputAudioContextRef active_session <> None) by discriminate.
  split; [exact H|].
  destruct (schedule_back_to_back [ (1 # 2, silence 3); (0, silence 2) ]
              active_session H) as (H1 & _ & H3 & _).
  split; [exact H1 | exact H3].
Defined.

(** *** The rest of a message *)


(** What lines 139-164 do to the scheduler: nothing, unless the
    message is an interruption; they never throw. *)
Lemma onmessage_rest_facts (m : LiveServerMessage) (s : State) :
  let s' := exec (onmessage_rest m) s in
  onmessage_rest m s = (Ok tt, s') /\
  trace s' =
    trace s ++
    (if interrupted m then map SourceStop (audioSourcesRef s) else []) /\
  audioSourcesRef s' = (if interrupted m then [] else audioSourcesRef s) /\
  nextStartTimeRef s' = (if interrupted m then 0 else nextStartTimeRef s) /\
  outputAudioContextRef s' = outputAudioContextRef s /\
  isSessionActive s' = isSessionActive s /\
  next_node_id s' = next_node_id s.
Proof.
  destruct m as [a i ot it tc]. unfold onmessage_rest, exec.
  cbn [interrupted outputTranscription inputTranscription turnComplete].
  destruct i, ot, it, tc; unfold when, bind, modify, ret;
    rewrite ?flush_run, ?finalize_turn_run;
    destruct s; cbn; rewrite ?app_nil_r; repeat split.
Qed.

(** *** The asynchronous decode *)

(** An audio message, arriving while a playback context exists, runs
    up to the [await] and only raises the cursor. *)
Lemma onmessage_begin_audio (currentTime : Q) (m : LiveServerMessage)
      (s : State) :
  has_audio m = true ->
  outputAudioContextRef s <> None ->
  onmessage_begin currentTime m s =
  (Ok AwaitingDecode,
   set_nextStartTimeRef (Qmax (nextStartTimeRef s) currentTime) s).
Proof.
  intros Ha Hctx. unfold onmessage_begin, bind, read. rewrite Ha.
  destruct (outputAudioContextRef s); [reflexivity | congruence].
Qed.






(** *** Starting a session *)

(** [startSession] makes no call that releases anything, whatever
    the browser answers. *)
Lemma startSession_releases_nothing (env : Browser) (s : State) :
  trace (exec (startSession env) s) = trace s /\
  raises (startSession env) s = false.
Proof.
  destruct env as [[stream | e1] [ci | e2] [co | e3] [[] | e4] [session | e5]];
    destruct s; split; reflexivity.
Qed.

(** A refused microphone leaves nothing behind: the refs are as they
    were, the error is shown and the component is idle again. *)
Lemma startSession_permission_denied (env : Browser) (message : jsstring)
      (s : State) :
  getUserMedia env = Throw message ->
  let s' := exec (startSession env) s in
  error s' = Some (js "Failed to start session: " ++ message) /\
  isConnecting s' = false /\
  streamRef s' = streamRef s /\
  inputAudioContextRef s' = inputAudioContextRef s /\
  outputAudioContextRef s' = outputAudioContextRef s /\
  sessionPromiseRef s' = sessionPromiseRef s.
Proof.
  intros E. unfold exec, startSession, try_catch, bind, modify, lift.
  rewrite E. destruct s; repeat split.
Qed.

(** A throw after the microphone was granted: the stream stays in its
    ref and no track has been stopped. *)
Lemma startSession_keeps_stream (env : Browser) (stream : MediaStream)
      (s : State) :
  getUserMedia env = Ok stream ->
  let s' := exec (startSession env) s in
  streamRef s' = Some stream /\
  forall t, count (is_TrackStop t) (trace s') = count (is_TrackStop t) (trace s).
Proof.
  intros E. split.
  - unfold exec, startSession, try_catch, bind, modify, lift. rewrite E.
    destruct env as [g [ci | e2] [co | e3] [[] | e4] [session | e5]];
      destruct s; reflexivity.
  - intros t. now rewrite (proj1 (startSession_releases_nothing env s)).
Qed.

(** C8 (the failing input).  The microphone and both audio contexts
    are granted, then the SDK constructor throws.  The error is shown
    and the component is idle, but the stream is still held with its
    track running and both contexts are open: the three release calls
    are still owed and none was made.  The [onerror] callback, run on
    the same state, makes them. *)
Theorem startSession_failure_leaks :
  let s' := exec (startSession failing_browser) initial in
  error s' = Some (js "Failed to start session: An API Key must be set") /\
  isConnecting s' = false /\
  isSessionActive s' = false /\
  streamRef s' = Some {| getTracks := [O] |} /\
  inputAudioContextRef s' =
    Some {| ctx_sampleRate := 16000; ctx_state := running |} /\
  outputAudioContextRef s' =
    Some {| ctx_sampleRate := 24000; ctx_state := running |} /\
  trace s' = [] /\
  release_calls s' =
    [ TrackStop O; ContextClose capture; ContextClose playback ] /\
  trace (exec (onerror (js "refused")) s') =
    [ TrackStop O; ContextClose capture; ContextClose playback ].
Proof. cbv zeta. repeat split. Qed.

(** *** A decode that fails *)




End LiveFacts.


(* ================================================================= *)
(** ** Facts about the component as a whole *)

Module ComponentFacts.
Import Js Codec Live Component LiveFacts.

Lemma exec_stopSession (s : State) : exec stopSession s = stopped s.
Proof. unfold exec. now rewrite stopSession_run. Qed.

(** From any state, [stopSession] (also the cleanup on unmount) leaves
    the component idle with nothing held: every ref is cleared, each
    context that exists is closed, the set of sources is empty, the
    cursor is 0, no release call is owed; the transcript and the error
    shown are kept. *)
Theorem stopSession_leaves_nothing_held (s : State) :
  let s' := exec stopSession s in
  raises stopSession s = false /\
  isSessionActive s' = false /\ isConnecting s' = false /\
  sessionPromiseRef s' = None /\ streamRef s' = None /\
  scriptProcessorRef s' = None /\ mediaStreamSourceRef s' = None /\
  match inputAudioContextRef s' with
  | Some ctx => is_closed ctx
  | None => true
  end = true /\
  match outputAudioContextRef s' with
  | Some ctx => is_closed ctx
  | None => true
  end = true /\
  audioSourcesRef s' = [] /\ nextStartTimeRef s' = 0 /\
  release_calls s' = [] /\
  transcriptionHistory s' = transcriptionHistory s /\ error s' = error s.
Proof.
  cbv zeta. rewrite exec_stopSession.
  unfold raises, outcome. rewrite stopSession_run. cbn [fst].
  rewrite release_calls_stopped.
  repeat split; try reflexivity.
  - unfold stopped; cbn. now destruct (inputAudioContextRef s).
  - unfold stopped; cbn. now destruct (outputAudioContextRef s).
Qed.


(** The sampler's callback sends one frame, the blob of the captured
    chunk, while the session is held, and nothing once the session has
    been stopped. *)
Theorem onaudioprocess_sends_only_while_held
        (encode : list Z -> jsstring) (inputData : list Q) (s : State) :
  raises (onaudioprocess encode inputData) s = false /\
  trace (exec (onaudioprocess encode inputData) s) =
    trace s ++
    match sessionPromiseRef s with
    | Some _ => [SendRealtimeInput (createBlob encode inputData)]
    | None => []
    end /\
  exec (onaudioprocess encode inputData) (exec stopSession s) =
    exec stopSession s.
Proof.
  rewrite exec_stopSession.
  unfold raises, outcome, exec, onaudioprocess, bind, read.
  repeat split.
  - now destruct (sessionPromiseRef s).
  - destruct (sessionPromiseRef s); cbn; [reflexivity | now rewrite app_nil_r].
Qed.

(** An [onopen] that arrives after the session was stopped creates no
    sampler node and makes no call; it still marks the session as
    active. *)
Theorem onopen_after_stop_acquires_nothing (s : State) :
  let s' := exec onopen (exec stopSession s) in
  raises onopen (exec stopSession s) = false /\
  scriptProcessorRef s' = None /\
  mediaStreamSourceRef s' = None /\
  release_calls s' = [] /\
  trace s' = trace (exec stopSession s) /\
  isSessionActive s' = true.
Proof.
  cbv zeta. rewrite exec_stopSession.
  unfold raises, outcome, exec, onopen, bind, read, modify, stopped,
    release_calls; cbn.
  now destruct (inputAudioContextRef s), (outputAudioContextRef s).
Qed.

(** *** Sources of the set *)

Lemma Set_add_fresh (n : nat) (b : AudioBuffer)
      (l : list AudioBufferSourceNode) :
  Forall (fun y => (node_id y < n)%nat) l ->
  Set_add {| node_id := n; buffer := b |} l =
  l ++ [ {| node_id := n; buffer := b |} ].
Proof.
  intros Hl. unfold Set_add.
  replace (existsb (same_node {| node_id := n; buffer := b |}) l) with false;
    [reflexivity|].
  symmetry. induction Hl as [| y r Hy _ IH]; cbn [existsb]; [reflexivity|].
  unfold same_node at 1. cbn [node_id].
  destruct (Nat.eqb_spec n (node_id y)); [lia | exact IH].
Qed.

Lemma Set_delete_fresh (n : nat) (b : AudioBuffer)
      (l : list AudioBufferSourceNode) :
  Forall (fun y => (node_id y < n)%nat) l ->
  Set_delete {| node_id := n; buffer := b |}
             (l ++ [ {| node_id := n; buffer := b |} ]) = l.
Proof.
  intros Hl. unfold Set_delete. rewrite filter_app.
  assert (Hx : filter (fun y => negb (same_node {| node_id := n; buffer := b |} y))
                      [ {| node_id := n; buffer := b |} ] = []).
  { cbn [filter]. unfold same_node. cbn [node_id]. now rewrite Nat.eqb_refl. }
  rewrite Hx, app_nil_r.
  induction Hl as [| y r Hy _ IH]; cbn [filter]; [reflexivity|].
  unfold same_node at 1. cbn [node_id].
  destruct (Nat.eqb_spec n (node_id y)); [lia|]. cbn [negb]. now rewrite IH.
Qed.

Lemma schedule_commit_run (audioBuffer : AudioBuffer) (s : State) :
  outputAudioContextRef s <> None ->
  let source := {| node_id := next_node_id s; buffer := audioBuffer |} in
  schedule_commit audioBuffer s =
  (Ok tt,
   set_audioSourcesRef (Set_add source (audioSourcesRef s))
     (set_nextStartTimeRef (nextStartTimeRef s + duration audioBuffer)
        (set_trace (trace s ++ [SourceStart source (nextStartTimeRef s)])
           (set_next_node_id (S (next_node_id s)) s)))).
Proof.
  intros Hctx. unfold schedule_commit, bind, read. destruct s; cbn in *.
  destruct outputAudioContextRef0; [reflexivity | congruence].
Qed.

(** A segment that plays to its end leaves the set as it was before
    the segment was scheduled; and the [ended] event of a source that an
    interruption has already removed changes nothing. *)
Theorem ended_undoes_schedule (audioBuffer : AudioBuffer) (s : State) :
  outputAudioContextRef s <> None ->
  Forall (fun y => (node_id y < next_node_id s)%nat) (audioSourcesRef s) ->
  let source := {| node_id := next_node_id s; buffer := audioBuffer |} in
  audioSourcesRef (exec (schedule_commit audioBuffer) s) =
    audioSourcesRef s ++ [source] /\
  audioSourcesRef
    (exec (source_ended source) (exec (schedule_commit audioBuffer) s)) =
    audioSourcesRef s /\
  exec (source_ended source) (exec flush s) = exec flush s.
Proof.
  intros Hctx Hfresh source. unfold exec at 1 3.
  rewrite (schedule_commit_run audioBuffer s Hctx). cbn [snd].
  subst source. repeat split.
  - destruct s; cbn in *. now apply Set_add_fresh.
  - destruct s; cbn in *. rewrite Set_add_fresh by assumption.
    now apply Set_delete_fresh.
  - unfold exec. rewrite flush_run. reflexivity.
Qed.

Lemma ended_undoes_schedule_witness :
  audioSourcesRef
    (exec (source_ended {| node_id := O; buffer := silence 2 |})
          (exec (schedule_commit (silence 2)) active_session)) = [].
Proof.
  destruct (ended_undoes_schedule (silence 2) active_session) as (_ & H & _).
  - discriminate.
  - constructor.
  - exact H.
Defined.

(** A message that carries both an audio frame and an interruption:
    the decoded segment is started and then stopped in the same run of
    the handler, with every other source of the set; the set is left
    empty and the cursor at 0. *)
Theorem interrupted_audio_is_stopped_at_once
        (m : LiveServerMessage) (audioBuffer : AudioBuffer) (s : State) :
  interrupted m = true ->
  outputAudioContextRef s <> None ->
  Forall (fun y => (node_id y < next_node_id s)%nat) (audioSourcesRef s) ->
  let source := {| node_id := next_node_id s; buffer := audioBuffer |} in
  let s' := exec (onmessage_resume m (Ok audioBuffer)) s in
  raises (onmessage_resume m (Ok audioBuffer)) s = false /\
  trace s' =
    trace s ++ SourceStart source (nextStartTimeRef s)
            :: map SourceStop (audioSourcesRef s) ++ [SourceStop source] /\
  audioSourcesRef s' = [] /\
  nextStartTimeRef s' = 0.
Proof.
  intros Hi Hctx Hfresh source s'. subst s'.
  pose proof (schedule_commit_run audioBuffer s Hctx) as Hc. cbv zeta in Hc.
  set (s1 := set_audioSourcesRef _ _) in Hc.
  destruct (onmessage_rest_facts m s1) as (Hrun & Htr & Hsrc & Hnst & _).
  assert (E : onmessage_resume m (Ok audioBuffer) s =
              (Ok tt, exec (onmessage_rest m) s1)).
  { unfold onmessage_resume, lift, bind. now rewrite Hc, Hrun. }
  unfold raises, outcome, exec at 1 2 3. rewrite E. cbn [fst snd].
  rewrite Hi in Htr, Hsrc, Hnst. rewrite Htr, Hsrc, Hnst.
  repeat split. subst s1 source. destruct s; cbn in *.
  rewrite Set_add_fresh by assumption.
  now rewrite map_app, <- app_assoc.
Qed.

Lemma interrupted_audio_is_stopped_at_once_witness :
  let m := {| inlineData := Some (js "AAA=");
              interrupted := true;
              outputTranscription := None;
              inputTranscription := None;
              turnComplete := false |} in
  audioSourcesRef (exec (onmessage_resume m (Ok (silence 2))) active_session)
  = [].
Proof.
  cbv zeta.
  match goal with |- audioSourcesRef (exec (onmessage_resume ?m _) _) = _ =>
    destruct (interrupted_audio_is_stopped_at_once m (silence 2) active_session)
      as (_ & _ & H & _)
  end.
  - reflexivity.
  - discriminate.
  - constructor.
  - exact H.
Defined.

(** *** Transcription *)

Lemma onmessage_begin_no_audio (currentTime : Q) (m : LiveServerMessage)
      (s : State) :
  has_audio m = false ->
  onmessage_begin currentTime m s = (Ok Finished, exec (onmessage_rest m) s).
Proof.
  intros Ha. destruct (onmessage_rest_facts m s) as (Hrun & _).
  unfold onmessage_begin, bind at 1, read. rewrite Ha.
  destruct (outputAudioContextRef s); unfold bind; now rewrite Hrun.
Qed.

Lemma input_text_event_run (currentTime : Q) (t : jsstring) (s : State) :
  exec (onmessage_begin currentTime (input_text_event t)) s =
  set_currentInputTranscriptionRef (currentInputTranscriptionRef s ++ t) s.
Proof.
  unfold exec. rewrite onmessage_begin_no_audio by reflexivity.
  reflexivity.
Qed.

Lemma input_text_events_run (currentTime : Q) (chunks : list jsstring) :
  forall s,
    fold_left
      (fun st t => exec (onmessage_begin currentTime (input_text_event t)) st)
      chunks s =
    set_currentInputTranscriptionRef
      (currentInputTranscriptionRef s ++ List.concat chunks) s.
Proof.
  induction chunks as [| t r IH]; intros s; cbn [fold_left List.concat].
  - rewrite app_nil_r. now destruct s.
  - rewrite IH, input_text_event_run. destruct s; cbn.
    now rewrite <- app_assoc.
Qed.

(** Text that arrives in pieces is joined in arrival order: after any
    number of input-transcription messages and then a turn-complete
    message, the user's entry carries the buffer followed by all the
    pieces, provided the whole is not blank; the model's buffer is
    judged as it stood. *)
Theorem transcription_pieces_are_joined
        (currentTime : Q) (chunks : list jsstring) (s : State) :
  let heard :=
    fold_left
      (fun st t => exec (onmessage_begin currentTime (input_text_event t)) st)
      chunks s in
  let fullInput := currentInputTranscriptionRef s ++ List.concat chunks in
  let fullOutput := currentOutputTranscriptionRef s in
  currentInputTranscriptionRef heard = fullInput /\
  transcriptionHistory heard = transcriptionHistory s /\
  transcriptionHistory
    (exec (onmessage_begin currentTime turn_complete_event) heard) =
    transcriptionHistory s ++
    (if blank fullInput
     then [] else [ {| speaker := user; text := fullInput |} ]) ++
    (if blank fullOutput
     then [] else [ {| speaker := model; text := fullOutput |} ]).
Proof.
  cbv zeta. rewrite input_text_events_run.
  unfold exec. rewrite turn_complete_event_run. unfold exec.
  rewrite finalize_turn_run. cbn [snd].
  repeat split; try (now destruct s).
  rewrite !truthy_trim. destruct s; cbn -[blank].
  destruct (blank (currentInputTranscriptionRef0 ++ List.concat chunks)),
           (blank currentOutputTranscriptionRef0); cbn;
    rewrite <- ?app_assoc, ?app_nil_r; reflexivity.
Qed.



(** *** An invariant of every reachable state *)

Lemma sources_started_kept (s s' : State) :
  audioSourcesRef s' = audioSourcesRef s \/ audioSourcesRef s' = [] ->
  (exists calls, trace s' = trace s ++ calls) ->
  next_node_id s' = next_node_id s ->
  sources_started s -> sources_started s'.
Proof.
  intros [Hsrc | Hsrc] [calls Htr] Hid [Hall Hnd]; unfold sources_started;
    rewrite Hsrc, Hid, Htr; cbn; [| split; constructor].
  split; [| exact Hnd].
  eapply Forall_impl; [| exact Hall]. cbn.
  intros source [Hlt [start Hin]]. split; [exact Hlt|].
  exists start. apply in_or_app. now left.
Qed.

Lemma sources_started_stopped (s : State) : sources_started (stopped s).
Proof. split; constructor. Qed.

Lemma sources_started_commit (audioBuffer : AudioBuffer) (s : State) :
  sources_started s ->
  sources_started (exec (schedule_commit audioBuffer) s).
Proof.
  intros [Hall Hnd].
  destruct (outputAudioContextRef s) as [ctx|] eqn:Hctx.
  - unfold exec. rewrite schedule_commit_run by congruence. cbn [snd].
    assert (Hfresh : Forall (fun y => (node_id y < next_node_id s)%nat)
                            (audioSourcesRef s)).
    { eapply Forall_impl; [| exact Hall]. cbn. now intros y [Hy _]. }
    unfold sources_started. destruct s; cbn in *.
    rewrite Set_add_fresh by assumption. split.
    + apply Forall_app. split.
      * eapply Forall_impl; [| exact Hall]. cbn.
        intros y [Hlt [start Hin]]. split; [lia|].
        exists start. apply in_or_app. now left.
      * constructor; [| constructor]. cbn. split; [lia|].
        exists nextStartTimeRef0. apply in_or_app. right. now left.
    + rewrite map_app. apply NoDup_app; [exact Hnd | |].
      * cbn. constructor; [intros [] | constructor].
      * cbn. intros a Ha [E | []]. subst a.
        apply in_map_iff in Ha. destruct Ha as (y & Ey & Hy).
        rewrite Forall_forall in Hfresh. specialize (Hfresh y Hy). lia.
  - assert (E : exec (schedule_commit audioBuffer) s = s)
      by (destruct s; cbn in *; now subst).
    rewrite E. now split.
Qed.

Lemma sources_started_ended (source : AudioBufferSourceNode) (s : State) :
  sources_started s -> sources_started (exec (source_ended source) s).
Proof.
  intros [Hall Hnd]. unfold sources_started.
  assert (E1 : audioSourcesRef (exec (source_ended source) s) =
               Set_delete source (audioSourcesRef s)) by now destruct s.
  assert (E2 : trace (exec (source_ended source) s) = trace s) by now destruct s.
  assert (E3 : next_node_id (exec (source_ended source) s) = next_node_id s)
    by now destruct s.
  rewrite E1, E2, E3. unfold Set_delete. split.
  - apply Forall_forall. intros y Hy. apply filter_In in Hy.
    rewrite Forall_forall in Hall. now apply Hall.
  - clear Hall E1. induction (audioSourcesRef s) as [| y r IH]; cbn;
      [constructor|].
    inversion_clear Hnd as [| ? ? Hy Hr].
    destruct (negb (same_node source y)); cbn; [| now apply IH].
    constructor; [| now apply IH].
    intros Hin. apply Hy. apply in_map_iff in Hin.
    destruct Hin as (z & Ez & Hz). apply filter_In in Hz.
    apply in_map_iff. exists z. tauto.
Qed.

Lemma sources_started_rest (m : LiveServerMessage) (s : State) :
  sources_started s -> sources_started (exec (onmessage_rest m) s).
Proof.
  destruct (onmessage_rest_facts m s) as (_ & Htr & Hsrc & _ & _ & _ & Hid).
  apply sources_started_kept; [| eauto | exact Hid].
  rewrite Hsrc. destruct (interrupted m); auto.
Qed.

Lemma startSession_keeps_scheduler (env : Browser) (s : State) :
  audioSourcesRef (exec (startSession env) s) = audioSourcesRef s /\
  trace (exec (startSession env) s) = trace s /\
  next_node_id (exec (startSession env) s) = next_node_id s.
Proof.
  destruct env as [[stream | e1] [ci | e2] [co | e3] [[] | e4] [session | e5]];
    destruct s; repeat split.
Qed.

Lemma onopen_keeps_scheduler (s : State) :
  audioSourcesRef (exec onopen s) = audioSourcesRef s /\
  trace (exec onopen s) = trace s /\
  next_node_id (exec onopen s) = next_node_id s.
Proof.
  destruct s as [c a e h sp ic oc pr ms st ti to nst srcs tr nid].
  destruct st, ic; repeat split.
Qed.

Lemma sources_started_handle (encode : list Z -> jsstring) (e : Event)
      (s : State) :
  sources_started s -> sources_started (exec (handle encode e) s).
Proof.
  intros Hs. destruct e as [env | | t m | m decoded | source | inputData
                            | message | |]; cbn [handle].
  - unfold exec, click. destruct (isConnecting s); [exact Hs|].
    destruct (isSessionActive s).
    + rewrite stopSession_run. apply sources_started_stopped.
    + destruct (startSession_keeps_scheduler env s) as (H1 & H2 & H3).
      revert Hs. apply sources_started_kept; auto.
      exists []. now rewrite app_nil_r.
  - destruct (onopen_keeps_scheduler s) as (H1 & H2 & H3).
    revert Hs. apply sources_started_kept; auto.
    exists []. now rewrite app_nil_r.
  - destruct (has_audio m) eqn:Ha.
    + destruct (outputAudioContextRef s) as [ctx|] eqn:Hctx.
      * assert (E : exec (onmessage_begin t m ;; ret tt) s =
                    set_nextStartTimeRef (Qmax (nextStartTimeRef s) t) s).
        { unfold exec, bind at 1.
          rewrite onmessage_begin_audio by congruence. reflexivity. }
        rewrite E. revert Hs. apply sources_started_kept;
          [left | exists []; rewrite app_nil_r |]; now destruct s.
      * assert (E : exec (onmessage_begin t m ;; ret tt) s =
                    exec (onmessage_rest m) s).
        { destruct (onmessage_rest_facts m s) as (Hrun & _).
          unfold exec, bind at 1, onmessage_begin, bind at 1, read.
          rewrite Ha, Hctx. unfold bind. now rewrite Hrun. }
        rewrite E. now apply sources_started_rest.
    + assert (E : exec (onmessage_begin t m ;; ret tt) s =
                  exec (onmessage_rest m) s).
      { unfold exec, bind at 1.
        rewrite onmessage_begin_no_audio by assumption. reflexivity. }
      rewrite E. now apply sources_started_rest.
  - destruct decoded as [audioBuffer | message]; [| exact Hs].
    destruct (outputAudioContextRef s) as [ctx|] eqn:Hctx.
    + pose proof (sources_started_commit audioBuffer s Hs) as H1.
      pose proof (schedule_commit_run audioBuffer s) as Hc.
      cbv zeta in Hc. rewrite Hctx in Hc. specialize (Hc ltac:(discriminate)).
      unfold exec in H1. rewrite Hc in H1. cbn [snd] in H1.
      destruct (onmessage_rest_facts m
                  (snd (schedule_commit audioBuffer s))) as (Hrun & _).
      rewrite Hc in Hrun. cbn [snd] in Hrun.
      assert (E : exec (onmessage_resume m (Ok audioBuffer)) s =
                  exec (onmessage_rest m)
                       (snd (schedule_commit audioBuffer s))).
      { unfold exec at 1, onmessage_resume, lift, bind.
        rewrite Hc. cbn [snd]. now rewrite Hrun. }
      rewrite E, Hc. cbn [snd]. now apply sources_started_rest.
    + assert (E : exec (onmessage_resume m (Ok audioBuffer)) s = s)
        by (destruct s; cbn in *; now subst).
      now rewrite E.
  - now apply sources_started_ended.
  - revert Hs. apply sources_started_kept;
      unfold exec, onaudioprocess, bind, read;
      destruct (sessionPromiseRef s); cbn; auto; try (now destruct s).
    + eexists. reflexivity.
    + exists []. now rewrite app_nil_r.
  - assert (E : exec (onerror message) s =
                stopped (set_error (Some (js "Session error: " ++ message)) s)).
    { unfold exec, onerror, bind, modify. now rewrite stopSession_run. }
    rewrite E. apply sources_started_stopped.
  - unfold onclose. rewrite exec_stopSession. apply sources_started_stopped.
  - rewrite exec_stopSession. apply sources_started_stopped.
Qed.

Lemma sources_started_run (encode : list Z -> jsstring) (events : list Event) :
  forall s, sources_started s -> sources_started (run_events encode events s).
Proof.
  induction events as [| e r IH]; intros s Hs; cbn; [exact Hs|].
  apply IH. now apply sources_started_handle.
Qed.

(** Whatever the user, the server and the browser do, in whatever
    order: every source in the set of active sources has been started
    and no two of them are the same node.  So the [stop] calls of an
    interruption or of a teardown only ever reach started sources. *)
Theorem active_sources_are_started
        (encode : list Z -> jsstring) (events : list Event) :
  sources_started (run_events encode events initial).
Proof.
  apply sources_started_run. split; constructor.
Qed.

(** *** The button *)






(** *** Starting *)


(** *** Interleaved handlers *)

Lemma scheduler_run_preserves_witness :
  let s' := exec (schedule_commit (silence 3))
              (exec (schedule_prepare (1 # 2))
                 (exec (schedule_commit (silence 2))
                    (exec (schedule_prepare 2) active_session))) in
  timeline_ok s' /\ nextStartTimeRef active_session <= nextStartTimeRef s'.
Proof.
  cbv zeta. apply scheduler_run_preserves.
  - eapply run_step; [apply step_prepare|].
    eapply run_step; [apply step_commit|].
    eapply run_step; [apply step_prepare|].
    eapply run_step; [apply step_commit|]. apply run_done.
  - split; constructor.
Defined.

Lemma startSession_permission_denied_witness :
  let env := {| getUserMedia := Throw (js "Permission denied");
                new_input_AudioContext := Ok running;
                new_output_AudioContext := Ok running;
                new_GoogleGenAI := Ok tt;
                live_connect := Ok liveSession |} in
  streamRef (exec (startSession env) initial) = None /\
  isConnecting (exec (startSession env) initial) = false.
Proof.
  cbv zeta.
  match goal with |- streamRef (exec (startSession ?env) _) = _ /\ _ =>
    destruct (startSession_permission_denied env (js "Permission denied")
                initial eq_refl) as (_ & H1 & H2 & _)
  end.
  split; [exact H2 | exact H1].
Defined.

End ComponentFacts.


(* ================================================================= *)
(** ** More facts about the two encoders *)

Module EncoderFacts.
Import Js Codec CodecFacts.

Local Open Scope Z_scope.

(** Truncation never reverses the order of two numbers, so it gives
    the same integer for equal rationals. *)
Lemma truncate_monotone (p q : Q) :
  (p <= q)%Q -> truncate p <= truncate q.
Proof.
  destruct p as [n1 d1], q as [n2 d2]. unfold Qle, truncate; simpl.
  intros H.
  destruct (quot_cases n1 (Zpos d1) ltac:(lia)) as [E1 C1].
  destruct (quot_cases n2 (Zpos d2) ltac:(lia)) as [E2 C2].
  set (k1 := Z.quot n1 (Zpos d1)) in *. set (r1 := Z.rem n1 (Zpos d1)) in *.
  set (k2 := Z.quot n2 (Zpos d2)) in *. set (r2 := Z.rem n2 (Zpos d2)) in *.
  destruct (Z.le_gt_cases k1 k2) as [Hle | Hgt]; [exact Hle | exfalso].
  assert (Hp1 : 0 < Zpos d1) by lia. assert (Hp2 : 0 < Zpos d2) by lia.
  set (a := Zpos d1) in *. set (b := Zpos d2) in *.
  assert (Hk : k2 + 1 <= k1) by lia.
  destruct C1 as [(Hn1 & Hr1 & Hk1) | (Hn1 & Hr1 & Hk1)],
           C2 as [(Hn2 & Hr2 & Hk2) | (Hn2 & Hr2 & Hk2)].
  - assert (a * b * (k2 + 1) <= n1 * b) by nia.
    assert (n2 * a < a * b * (k2 + 1)) by nia. lia.
  - nia.
  - lia.
  - assert (n2 * a <= a * b * k2) by nia.
    assert (a * (k1 - 1) < n1) by nia.
    assert (a * b * k2 < n1 * b) by nia. lia.
Qed.

Lemma truncate_proper (p q : Q) : (p == q)%Q -> truncate p = truncate q.
Proof.
  intros H. apply Z.le_antisymm; apply truncate_monotone; rewrite H;
    apply Qle_refl.
Qed.

Lemma truncate_inject_Z (k : Z) : truncate (inject_Z k) = k.
Proof. unfold truncate; simpl. apply Z.quot_1_r. Qed.

(** What [createBlob] hands to [encode], for any samples at all: two
    bytes per sample, each a byte, and the 16-bit view of those bytes
    reads back the stored integers, which lie in the 16-bit range. *)
Theorem pcm_bytes_layout (samples : list Q) :
  List.length (pcm_bytes samples) = (2 * List.length samples)%nat /\
  Forall (fun b => 0 <= b < 256) (pcm_bytes samples) /\
  int16_view (pcm_bytes samples) = map sample_to_int16 samples /\
  Forall (fun v => -32768 <= v <= 32767) (map sample_to_int16 samples).
Proof.
  repeat split.
  - apply pcm_bytes_length.
  - apply pcm_bytes_are_bytes.
  - apply int16_view_pcm_bytes.
  - apply Forall_forall. intros v Hv. apply in_map_iff in Hv.
    destruct Hv as (x & <- & _). apply ToInt16_range.
Qed.

(** [createBlob] does not clamp: a sample in [1,2) is stored 65536
    below its scaled value, a negative integer. *)
Theorem createBlob_wraps_above_full_scale (x : Q) :
  (1 <= x)%Q -> (x < 2)%Q ->
  sample_to_int16 x = truncate (x * 32768) - 65536 /\
  -32768 <= sample_to_int16 x < 0.
Proof.
  intros Hlo Hhi.
  assert (Hr : 32768 <= truncate (x * 32768) < 65536).
  { split.
    - pose proof (truncate_monotone (inject_Z 32768) (x * 32768)) as Hm.
      rewrite truncate_inject_Z in Hm. apply Hm.
      change (inject_Z 32768) with 32768%Q. lra.
    - assert (H : truncate (x * 32768) <= 65535); [| lia].
      change 32768%Q with (inject_Z (Zpos 32768)). rewrite truncate_scale.
      destruct x as [n d]. unfold Qle, Qlt in *; simpl in *.
      destruct (quot_cases (n * 32768) (Zpos d) ltac:(lia)) as [E C].
      set (k := Z.quot (n * 32768) (Zpos d)) in *.
      set (r := Z.rem (n * 32768) (Zpos d)) in *.
      destruct C as [(Hn & Hr & Hk) | (Hn & Hr & Hk)]; nia. }
  unfold sample_to_int16, ToInt16.
  rewrite (Z.mod_small (truncate (x * 32768)) 65536) by lia.
  destruct (Z.geb_spec (truncate (x * 32768)) 32768); lia.
Qed.

Lemma createBlob_wraps_above_full_scale_witness :
  sample_to_int16 (3 # 2) = -16384.
Proof.
  destruct (createBlob_wraps_above_full_scale (3 # 2)) as [H _].
  - unfold Qle; simpl; lia.
  - unfold Qlt; simpl; lia.
  - rewrite H. reflexivity.
Defined.

(** *** The WAV encoder's sample step *)

Lemma clamp_bounds (x : Q) :
  (-1 <= Qmax (-1) (Qmin 1 x))%Q /\ (Qmax (-1) (Qmin 1 x) <= 1)%Q.
Proof.
  split; [apply Q.le_max_l|].
  apply Q.max_lub; [discriminate | apply Q.le_min_l].
Qed.

Lemma clamp_monotone (x y : Q) :
  (x <= y)%Q -> (Qmax (-1) (Qmin 1 x) <= Qmax (-1) (Qmin 1 y))%Q.
Proof.
  intros H. apply Q.max_le_compat_l. apply Q.min_le_compat_l. exact H.
Qed.

(** [bufferToWave] clamps: every sample at or above 1 is written as
    32767 and every sample at or below -1 as -32768. *)
Theorem wave_sample_clamps (x : Q) :
  (1 <= x)%Q ->
  wave_sample x = 32767 /\ wave_sample (- x) = -32768.
Proof.
  intros H. unfold wave_sample. split.
  - assert (E : (Qmax (-1) (Qmin 1 x) == 1)%Q).
    { rewrite Q.min_l by exact H. apply Q.max_r. discriminate. }
    destruct (Qlt_le_dec _ 0) as [Hneg | Hpos]; [rewrite E in Hneg; lra|].
    rewrite (truncate_proper (Qmax (-1) (Qmin 1 x) * 32767) 32767);
      [reflexivity | rewrite E; reflexivity].
  - assert (E : (Qmax (-1) (Qmin 1 (- x)) == -1)%Q).
    { rewrite Q.min_r by lra. apply Q.max_l. lra. }
    destruct (Qlt_le_dec _ 0) as [Hneg | Hpos]; [| rewrite E in Hpos; lra].
    rewrite (truncate_proper (Qmax (-1) (Qmin 1 (- x)) * 32768)
                             (inject_Z (-32768)));
      [apply truncate_inject_Z | rewrite E; reflexivity].
Qed.

Lemma wave_sample_clamps_witness :
  wave_sample (5 # 2) = 32767 /\ wave_sample (- (5 # 2)) = -32768.
Proof.
  apply (wave_sample_clamps (5 # 2)). unfold Qle; simpl; lia.
Defined.

(** A louder sample is never written as a smaller integer, also across
    the point -1/2 where the scale factor changes. *)
Theorem wave_sample_monotone (x y : Q) :
  (x <= y)%Q -> wave_sample x <= wave_sample y.
Proof.
  intros H. pose proof (clamp_monotone x y H) as Hc.
  destruct (clamp_bounds x) as [Hx1 Hx2], (clamp_bounds y) as [Hy1 Hy2].
  unfold wave_sample.
  set (sx := Qmax (-1) (Qmin 1 x)) in *. set (sy := Qmax (-1) (Qmin 1 y)) in *.
  destruct (Qlt_le_dec ((1 # 2) + sx) 0), (Qlt_le_dec ((1 # 2) + sy) 0);
    apply truncate_monotone; lra.
Qed.

Lemma wave_sample_monotone_witness :
  wave_sample (- (3 # 4)) <= wave_sample (- (1 # 4)).
Proof.
  apply (wave_sample_monotone (- (3 # 4)) (- (1 # 4))).
  unfold Qle; simpl; lia.
Defined.

(** On the grid of 16-bit values the WAV encoder is not the inverse of
    the division by 32768: the sample k/32768 is written as k only for
    k = 0 and k below -16384; otherwise one step closer to zero. *)
Theorem wave_sample_on_grid (k : Z) :
  -32768 <= k <= 32767 ->
  wave_sample (k # 32768) =
    if k <? -16384 then k
    else if k <? 0 then k + 1
    else if k =? 0 then 0
    else k - 1.
Proof.
  intros Hk. unfold wave_sample.
  assert (E : (Qmax (-1) (Qmin 1 (k # 32768)) == k # 32768)%Q).
  { rewrite Q.min_r by (unfold Qle; simpl; lia).
    apply Q.max_r. unfold Qle; simpl; lia. }
  destruct (Qlt_le_dec _ 0) as [Hneg | Hpos].
  - rewrite E in Hneg. unfold Qlt, Qplus in Hneg; cbn [Qnum Qden] in Hneg.
    destruct (Z.ltb_spec k (-16384)); [| lia].
    rewrite (truncate_proper _ (inject_Z k)); [apply truncate_inject_Z|].
    rewrite E. unfold Qeq, Qmult, inject_Z; cbn [Qnum Qden]. lia.
  - rewrite E in Hpos. unfold Qle, Qplus in Hpos; cbn [Qnum Qden] in Hpos.
    destruct (Z.ltb_spec k (-16384)); [lia|].
    rewrite (truncate_proper _ ((k * 32767) # 32768));
      [| rewrite E; unfold Qeq, Qmult; cbn [Qnum Qden]; lia].
    unfold truncate; cbn [Qnum Qden].
    destruct (quot_cases (k * 32767) 32768 ltac:(lia)) as [Eq C].
    destruct (Z.ltb_spec k 0); [| destruct (Z.eqb_spec k 0)]; lia.
Qed.

Lemma wave_sample_on_grid_witness :
  wave_sample (1 # 32768) = 0 /\ wave_sample (-1 # 32768) = 0.
Proof.
  split.
  - apply (wave_sample_on_grid 1). lia.
  - apply (wave_sample_on_grid (-1)). lia.
Defined.

End EncoderFacts.


(* ================================================================= *)
(** ** Facts about the WAV writer *)

Module WaveFacts.
Import Js Codec Wave CodecFacts.

Lemma le_bytes_length (n : nat) (v : Z) : List.length (le_bytes n v) = n.
Proof. revert v; induction n as [| n IH]; intros v; cbn; [|rewrite IH]; reflexivity. Qed.

Lemma le_bytes_are_bytes (n : nat) (v : Z) :
  Forall (fun b => (0 <= b < 256)%Z) (le_bytes n v).
Proof.
  revert v; induction n as [| n IH]; intros v; cbn; constructor;
    [apply Z.mod_pos_bound; lia | apply IH].
Qed.

Lemma le_value_le_bytes (n : nat) (v : Z) :
  le_value (le_bytes n v) = (v mod 256 ^ Z.of_nat n)%Z.
Proof.
  revert v; induction n as [| n IH]; intros v; cbn [le_bytes le_value].
  - now rewrite Z.mod_1_r.
  - rewrite IH, Nat2Z.inj_succ, Z.pow_succ_r by lia.
    assert (H : (0 < 256 ^ Z.of_nat n)%Z) by (apply Z.pow_pos_nonneg; lia).
    rewrite Z.rem_mul_r by lia. reflexivity.
Qed.

Lemma skipn_repeat {A : Type} (x : A) (k m : nat) :
  skipn k (repeat x m) = repeat x (m - k).
Proof.
  revert m; induction k as [| k IH]; intros m; cbn.
  - now rewrite Nat.sub_0_r.
  - destruct m; cbn; [reflexivity | apply IH].
Qed.

Lemma firstn_exact {A : Type} (l r : list A) :
  firstn (List.length l) (l ++ r) = l.
Proof. induction l as [| a l IH]; cbn; [now destruct r | now rewrite IH]. Qed.

Lemma skipn_past {A : Type} (l r : list A) (k : nat) :
  skipn (List.length l + k) (l ++ r) = skipn k r.
Proof. induction l as [| a l IH]; cbn; [reflexivity | exact IH]. Qed.

(** The writer has filled the first bytes of a buffer of [total] bytes
    with [written]; the rest is still zero. *)
Definition filled (written : list Z) (total : nat) (w : Writer) : Prop :=
  view w = written ++ repeat 0%Z (total - List.length written) /\
  pos w = List.length written.

Lemma put_filled (width : nat) (data : Z) (written : list Z) (total : nat)
      (w : Writer) :
  filled written total w ->
  (List.length written + width <= total)%nat ->
  exists w', put width data w = Some w' /\
             filled (written ++ le_bytes width data) total w'.
Proof.
  intros [Hv Hp] Hfit. unfold put, store.
  rewrite Hv, Hp, le_bytes_length, length_app, repeat_length.
  replace (List.length written + width <=?
           List.length written + (total - List.length written))%nat
    with true by (symmetry; apply Nat.leb_le; lia).
  eexists. split; [reflexivity|]. split; cbn [view pos].
  - rewrite firstn_exact, skipn_past, skipn_repeat.
    rewrite length_app, le_bytes_length, <- app_assoc.
    do 3 f_equal. lia.
  - now rewrite length_app, le_bytes_length.
Qed.

Lemma write_frame_filled (channels : list (list Q)) (offset total : nat) :
  forall written w,
    filled written total w ->
    (List.length written + 2 * List.length channels <= total)%nat ->
    exists w', write_frame channels offset w = Some w' /\
               filled (written ++ wav_frame channels offset) total w'.
Proof.
  induction channels as [| channel rest IH]; intros written w Hf Hfit.
  - exists w. split; [reflexivity|]. unfold wav_frame; cbn.
    now rewrite app_nil_r.
  - cbn [write_frame]. cbn [List.length] in Hfit.
    destruct (put_filled 2 (channel_sample channel offset) written total w Hf
                ltac:(lia)) as (w1 & E1 & F1).
    unfold setInt16. rewrite E1.
    destruct (IH _ w1 F1) as (w2 & E2 & F2).
    { rewrite length_app, le_bytes_length. lia. }
    exists w2. split; [exact E2|].
    unfold wav_frame in *. cbn [flat_map]. now rewrite app_assoc.
Qed.

Lemma wav_frame_length (channels : list (list Q)) (offset : nat) :
  List.length (wav_frame channels offset) = (2 * List.length channels)%nat.
Proof.
  unfold wav_frame. induction channels as [| c r IH]; cbn [flat_map List.length];
    [reflexivity|].
  rewrite length_app, IH, le_bytes_length. lia.
Qed.

Lemma wav_data_length (channels : list (list Q)) (count : nat) :
  forall first,
    List.length (wav_data channels first count) =
    (2 * List.length channels * count)%nat.
Proof.
  unfold wav_data. induction count as [| n IH]; intros first;
    cbn [seq flat_map List.length]; [lia|].
  rewrite length_app, IH, wav_frame_length. lia.
Qed.

Lemma write_frames_filled (channels : list (list Q)) (total : nat) :
  forall count offset fuel written w,
    filled written total w ->
    total = (List.length written + 2 * List.length channels * count)%nat ->
    channels = [] \/ (count <= fuel)%nat ->
    exists w', write_frames fuel channels total offset w = Some w' /\
               filled (written ++ wav_data channels offset count) total w'.
Proof.
  induction count as [| n IH]; intros offset fuel written w Hf Htotal Hfuel.
  - exists w. split.
    + destruct Hf as [_ Hp]. destruct fuel; cbn [write_frames];
        replace (pos w <? total)%nat with false
          by (symmetry; apply Nat.ltb_ge; lia); reflexivity.
    + unfold wav_data; cbn. now rewrite app_nil_r.
  - destruct channels as [| channel rest].
    + cbn [List.length] in Htotal. exists w. split.
      * destruct Hf as [_ Hp]. destruct fuel; cbn [write_frames];
          replace (pos w <? total)%nat with false
            by (symmetry; apply Nat.ltb_ge; lia); reflexivity.
      * pose proof (wav_data_length [] (S n) offset) as Hl.
        destruct (wav_data [] offset (S n)); [| cbn in Hl; lia].
        now rewrite app_nil_r.
    + destruct Hfuel as [Hnil | Hfuel]; [discriminate|].
      destruct fuel as [| fuel]; [lia|]. cbn [write_frames].
      replace (pos w <? total)%nat with true
        by (symmetry; apply Nat.ltb_lt; destruct Hf; cbn [List.length] in *; lia).
      destruct (write_frame_filled (channel :: rest) offset total written w Hf)
        as (w1 & E1 & F1); [lia|]. rewrite E1.
      destruct (IH (S offset) fuel _ w1 F1) as (w2 & E2 & F2).
      { rewrite length_app, wav_frame_length. lia. }
      { right. lia. }
      exists w2. split; [exact E2|].
      unfold wav_data in *. cbn [seq flat_map]. now rewrite app_assoc.
Qed.

(** [bufferToWave] as a whole: it always returns, and the file is the
    header followed by the interleaved samples. *)
Lemma bufferToWave_run (abuffer : PlanarBuffer) (len : nat) :
  let numOfChan := numberOfChannels abuffer in
  let length := (len * numOfChan * 2 + 44)%nat in
  bufferToWave abuffer len =
  Some (wav_header numOfChan (planar_sampleRate abuffer) length ++
        wav_data (getChannelData abuffer) O len).
Proof.
  cbv zeta. unfold bufferToWave, setUint32, setUint16.
  set (numOfChan := numberOfChannels abuffer).
  set (total := (len * numOfChan * 2 + 44)%nat).
  set (rate := planar_sampleRate abuffer).
  assert (F0 : filled [] total {| view := repeat 0%Z total; pos := O |}).
  { split; cbn; [now rewrite Nat.sub_0_r | reflexivity]. }
  assert (Ht : (44 <= total)%nat) by (subst total; lia).
  repeat match goal with
  | F : filled ?written total ?w |- context [put ?width ?data ?w] =>
      let w' := fresh "w" in
      let E := fresh "E" in
      let F' := fresh "F" in
      destruct (put_filled width data written total w F) as (w' & E & F');
      [ rewrite ?length_app, ?le_bytes_length; cbn [List.length]; lia
      | rewrite E; clear E;
        try (replace (Z.of_nat (pos w')) with 40%Z
              by (destruct F' as [_ ->];
                  rewrite ?length_app, ?le_bytes_length; reflexivity)) ]
  end.
  match goal with
  | F : filled ?written total ?w |- context [write_frames _ _ _ _ ?w] =>
      destruct (write_frames_filled (getChannelData abuffer) total len O total
                  written w F) as (w' & E & [Hv _])
  end.
  - rewrite ?length_app, ?le_bytes_length. cbn [List.length].
    subst total numOfChan. unfold numberOfChannels. nia.
  - subst total numOfChan. unfold numberOfChannels.
    destruct (getChannelData abuffer); [now left | right].
    cbn [List.length]. nia.
  - rewrite E, Hv.
    rewrite length_app, wav_data_length.
    rewrite ?length_app, ?le_bytes_length. cbn [List.length].
    replace (total - _)%nat with O
      by (subst total numOfChan; unfold numberOfChannels; nia).
    cbn [repeat]. rewrite app_nil_r. unfold wav_header.
    replace (Z.of_nat total - 40 - 4)%Z with (Z.of_nat total - 44)%Z by lia.
    cbn [app]. rewrite <- ?app_assoc. reflexivity.
Qed.

End WaveFacts.


(* ================================================================= *)
(** ** Facts about the WAV file and the text-to-speech component *)

Module TtsFacts.
Import Js Codec Wave CodecFacts WaveFacts.

Lemma channel_sample_range (channel : list Q) (offset : nat) :
  (-32768 <= channel_sample channel offset <= 32767)%Z.
Proof.
  unfold channel_sample. destruct (nth_error channel offset);
    [apply wave_sample_range | lia].
Qed.

Lemma le_bytes_2 (v : Z) : le_bytes 2 v = int16_bytes v.
Proof. now rewrite int16_bytes_little_endian. Qed.

Lemma int16_view_frame (channels : list (list Q)) (offset : nat)
      (rest : list Z) :
  int16_view (wav_frame channels offset ++ rest) =
  map (fun channel => channel_sample channel offset) channels
  ++ int16_view rest.
Proof.
  unfold wav_frame. induction channels as [| c r IH]; cbn [flat_map map app];
    [reflexivity|].
  rewrite le_bytes_2.
  pose proof (int16_of_bytes_int16_bytes _ (channel_sample_range c offset)) as E.
  destruct (int16_bytes (channel_sample c offset)) as [| lo [| hi [| ? ?]]];
    try contradiction.
  cbn [app int16_view]. now rewrite E, IH.
Qed.

Lemma int16_view_data (channels : list (list Q)) (count : nat) :
  forall first,
    int16_view (wav_data channels first count) =
    flat_map (fun offset =>
                map (fun channel => channel_sample channel offset) channels)
             (seq first count).
Proof.
  unfold wav_data. induction count as [| n IH]; intros first;
    cbn [seq flat_map]; [reflexivity|].
  now rewrite int16_view_frame, IH.
Qed.

Lemma wav_header_length (numOfChan : nat) (rate : Z) (length : nat) :
  List.length (wav_header numOfChan rate length) = 44%nat.
Proof. reflexivity. Qed.

Lemma wav_data_are_bytes (channels : list (list Q)) (first count : nat) :
  Forall (fun b => (0 <= b < 256)%Z) (wav_data channels first count).
Proof.
  unfold wav_data, wav_frame. apply Forall_flat_map. apply Forall_forall.
  intros offset _. apply Forall_flat_map. apply Forall_forall.
  intros channel _. apply le_bytes_are_bytes.
Qed.

(** [bufferToWave] always returns a file: no store falls outside the
    buffer and the loop ends.  The file has 44 bytes of header and two
    bytes per sample and channel, every element is a byte, and the
    16-bit view of what follows the header reads, frame by frame and
    channel by channel, the clamped and scaled samples (0 for a frame
    past the end of a channel). *)
Theorem bufferToWave_file (abuffer : PlanarBuffer) (len : nat) :
  exists file,
    bufferToWave abuffer len = Some file /\
    List.length file = (44 + 2 * numberOfChannels abuffer * len)%nat /\
    Forall (fun b => (0 <= b < 256)%Z) file /\
    int16_view (skipn 44 file) =
      flat_map (fun offset =>
                  map (fun channel => channel_sample channel offset)
                      (getChannelData abuffer))
               (seq 0 len).
Proof.
  eexists. split; [apply bufferToWave_run|].
  set (header := wav_header _ _ _).
  assert (Hh : List.length header = 44%nat) by reflexivity.
  repeat split.
  - rewrite length_app, Hh, wav_data_length. reflexivity.
  - apply Forall_app. split; [| apply wav_data_are_bytes].
    subst header. unfold wav_header.
    repeat (apply Forall_app; split); apply le_bytes_are_bytes.
  - rewrite <- Hh, <- (Nat.add_0_r (List.length header)), skipn_past.
    apply int16_view_data.
Qed.

(** The header [bufferToWave] writes describes the file it heads: the
    RIFF size is the file length less 8, the data size is the number of
    bytes after the header, and the format fields are 16-bit PCM with
    the channel count, the sample rate, the byte rate and the block
    size of the buffer (each reduced to the width of its field). *)
Theorem bufferToWave_header (abuffer : PlanarBuffer) (len : nat) :
  let numOfChan := Z.of_nat (numberOfChannels abuffer) in
  let rate := planar_sampleRate abuffer in
  exists file,
    bufferToWave abuffer len = Some file /\
    firstn 4 file = [82; 73; 70; 70]%Z /\
    field 4 4 file = ((Z.of_nat (List.length file) - 8) mod 2 ^ 32)%Z /\
    firstn 8 (skipn 8 file) = [87; 65; 86; 69; 102; 109; 116; 32]%Z /\
    field 16 4 file = 16%Z /\
    field 20 2 file = 1%Z /\
    field 22 2 file = (numOfChan mod 2 ^ 16)%Z /\
    field 24 4 file = (rate mod 2 ^ 32)%Z /\
    field 28 4 file = ((rate * 2 * numOfChan) mod 2 ^ 32)%Z /\
    field 32 2 file = ((numOfChan * 2) mod 2 ^ 16)%Z /\
    field 34 2 file = 16%Z /\
    firstn 4 (skipn 36 file) = [100; 97; 116; 97]%Z /\
    field 40 4 file = ((Z.of_nat (List.length file) - 44) mod 2 ^ 32)%Z.
Proof.
  cbv zeta. eexists. split; [apply bufferToWave_run|].
  set (total := (len * numberOfChannels abuffer * 2 + 44)%nat).
  assert (Hl : List.length
                 (wav_header (numberOfChannels abuffer)
                    (planar_sampleRate abuffer) total ++
                  wav_data (getChannelData abuffer) 0 len) = total).
  { rewrite length_app, wav_header_length, wav_data_length.
    subst total. unfold numberOfChannels. nia. }
  rewrite Hl.
  set (data := wav_data _ _ _). clearbody data total.
  unfold field.
  repeat split;
    try reflexivity;
    match goal with
    | |- le_value ?l = (?v mod 2 ^ 32)%Z =>
        change l with (le_bytes 4 v); apply (le_value_le_bytes 4)
    | |- le_value ?l = (?v mod 2 ^ 16)%Z =>
        change l with (le_bytes 2 v); apply (le_value_le_bytes 2)
    end.
Qed.

(** *** [handleGenerate] *)

Import Tts.

(** With no text, [handleGenerate] only shows its message: no request
    is sent, and the loading flag and an audio URL from an earlier run
    are left as they were. *)
Theorem handleGenerate_without_text (service : Service) (s : State) :
  text s = [] ->
  handleGenerate service s = set_error (Some (js "Please enter some text.")) s.
Proof. intros E. unfold handleGenerate. now rewrite E. Qed.

Lemma handleGenerate_without_text_witness :
  requests (handleGenerate (mkService (Live.Ok tt) (Live.Ok None)
                                      (Live.Throw []))
                           (mkState [] Kore false None None [] [])) = [].
Proof.
  rewrite (handleGenerate_without_text _ (mkState [] Kore false None None [] []));
    reflexivity.
Defined.

(** With some text, whatever the service answers: the component is no
    longer loading, it sent at most the one request for this text and
    voice, and it shows either a new audio URL or an error, never both
    and never neither. *)
Theorem handleGenerate_settles (service : Service) (s : State) :
  text s <> [] ->
  let s' := handleGenerate service s in
  loading s' = false /\
  ((exists wavBlob, audioUrl s' = Some wavBlob /\ error s' = None) \/
   (audioUrl s' = None /\ exists message, error s' = Some message)) /\
  (requests s' = requests s \/
   requests s' =
     requests s ++
     [ (js "Say this with a neutral tone: " ++ text s, voice s) ]).
Proof.
  intros Ht. unfold handleGenerate.
  destruct (text s) as [| c r] eqn:E; [congruence|]. cbn [truthy negb].
  unfold attempt.
  destruct service as [[[] | e1] [[[| b bs] |] | e2] [audioBuffer | e3]];
    cbn [new_GoogleGenAI generateContent decodeAudio];
    try (destruct (bufferToWave audioBuffer (frames audioBuffer)) as [wav |]);
    cbn; rewrite ?E; repeat split; eauto.
Qed.

Lemma handleGenerate_settles_witness :
  loading (handleGenerate (mkService (Live.Throw (js "offline"))
                                     (Live.Ok None) (Live.Throw []))
                          initial) = false.
Proof.
  destruct (handleGenerate_settles
              (mkService (Live.Throw (js "offline")) (Live.Ok None)
                         (Live.Throw []))
              initial) as (H & _); [discriminate | exact H].
Defined.

(** When the service answers with audio that decodes, the URL shown is
    that of a complete WAV file of the decoded buffer, 44 bytes of
    header and two bytes per sample and channel, and no error is shown
    or logged. *)
Theorem handleGenerate_success
        (base64Audio : jsstring) (audioBuffer : PlanarBuffer) (s : State) :
  text s <> [] ->
  base64Audio <> [] ->
  let s' := handleGenerate
              (mkService (Live.Ok tt) (Live.Ok (Some base64Audio))
                         (Live.Ok audioBuffer)) s in
  bufferToWave audioBuffer (frames audioBuffer) <> None /\
  audioUrl s' = bufferToWave audioBuffer (frames audioBuffer) /\
  error s' = None /\
  loading s' = false /\
  console_error s' = console_error s /\
  requests s' =
    requests s ++ [ (js "Say this with a neutral tone: " ++ text s, voice s) ].
Proof.
  intros Ht Hb. unfold handleGenerate.
  destruct (text s) as [| c r] eqn:E; [congruence|]. cbn [truthy negb].
  destruct base64Audio as [| b bs]; [congruence|].
  unfold attempt. cbn [new_GoogleGenAI generateContent decodeAudio].
  rewrite (bufferToWave_run audioBuffer (frames audioBuffer)).
  cbn. rewrite E. repeat split. discriminate.
Qed.

Lemma handleGenerate_success_witness :
  error (handleGenerate
           (mkService (Live.Ok tt) (Live.Ok (Some (js "AAA=")))
                      (Live.Ok (mkPlanar [[0; 1 # 2]%Q] 24000)))
           initial) = None.
Proof.
  destruct (handleGenerate_success (js "AAA=")
              (mkPlanar [[0; 1 # 2]%Q] 24000) initial)
    as (_ & _ & H & _); [discriminate | discriminate | exact H].
Defined.

End TtsFacts.
